(** * chs-onboard: dependency resolver, phase split and phase engine

    A shallow embedding of the provisioning orchestrator
    (installer.go, main.go with the Run State helpers, and the
    execution helpers [runCmd] and [appendToZshrc]) and the properties
    its specification states about it.

    Go strings are modelled as [string]; Go maps as [gmap]; the visited
    set of the resolver as a [gset]; slices as lists.  The host is a
    record: ~/.zshrc, the append-only run.log, the console, and an
    abstract [Machine] for everything else; installers, external
    commands, dialogs and the network are parameters of the model.
    Wall-clock timestamps and the sudo keep-alive goroutine are not
    modelled. *)

From Stdlib Require Import String Ascii List Arith Lia.
From stdpp Require Import base gmap sets list strings relations.

Local Open Scope string_scope.
Local Open Scope list_scope.

Set Warnings "-clear-no-such-hyp".

(** ** Tool identifiers (installer.go, lines 10-28) *)

Abbreviation toolID := string (only parsing).

Definition toolXcode        : toolID := "xcode".
Definition toolHomebrew     : toolID := "homebrew".
Definition toolPyenv        : toolID := "pyenv".
Definition toolPython313    : toolID := "python313".
Definition toolPython396    : toolID := "python396".
Definition toolPyenvVenvNCP : toolID := "pyenv_venv_ncpcli".
Definition toolITerm2       : toolID := "iterm2".
Definition toolAllProxy     : toolID := "allproxy".
Definition toolSpartaPKI    : toolID := "sparta_pki".
Definition toolHopsCLI      : toolID := "hops_cli".
Definition toolGNOCHelper   : toolID := "gnoc_helper".
Definition toolStencil      : toolID := "stencil".
Definition toolSilencer     : toolID := "silencer".
Definition toolNCPCLI       : toolID := "ncpcli".
Definition toolJITPass      : toolID := "jit_pass".

(** ** Generic loop helper

    [range_loop body xs st] is Go's [for _, x := range xs { body x }]
    over a state [st], where the body may fail to produce a state. *)

Fixpoint range_loop {A St : Type} (body : A -> St -> option St)
    (xs : list A) (st : St) : option St :=
  match xs with
  | [] => Some st
  | x :: xs' =>
      match body x st with
      | Some st' => range_loop body xs' st'
      | None => None
      end
  end.

(** ** The resolver (installer.go, lines 79-98) *)

Module Resolver.

(** State of the closure [visit]: the [visited] map and the [order] slice. *)
Abbreviation rstate := (gset string * list string)%type (only parsing).

Section WithGraph.

(** The dependency table; Go's [depMap[t]] is the nil slice for a key
    that is not in the map. *)
Variable deps : gmap string (list string).

Definition depsOf (t : toolID) : list toolID := default [] (deps !! t).

(** [visit]: the recursion of the Go closure is bounded here by
    [fuel], the number of nested unfoldings still allowed; [None]
    means the bound was hit. *)
Fixpoint visit (fuel : nat) (t : toolID) (st : rstate) : option rstate :=
  let '(visited, order) := st in
  if decide (t ∈ visited) then Some st
  else
    match fuel with
    | O => None
    | S fuel' =>
        match range_loop (visit fuel') (depsOf t) ({[t]} ∪ visited, order) with
        | Some (visited', order') => Some (visited', order' ++ [t])
        | None => None
        end
    end.

(** The loop of [resolveTools] over the requested tools. *)
Definition resolve (fuel : nat) (requested : list toolID) : option (list toolID) :=
  snd <$> range_loop (visit fuel) requested (∅, []).

(** Nested calls of [visit] are at distinct keys of the table, except
    for the innermost one, so [S (size deps)] unfoldings always
    suffice: [resolve_total] shows that the second branch below is
    never taken. *)
Definition resolveTools (requested : list toolID) : list toolID :=
  match resolve (S (size deps)) requested with
  | Some order => order
  | None => []
  end.

(** An edge leads from a tool to each of its declared prerequisites. *)
Definition edge (t d : toolID) : Prop := d ∈ depsOf t.

(** The graph is acyclic when no tool is its own transitive prerequisite. *)
Definition acyclic : Prop := ∀ t, ¬ tc edge t t.

(** [needed requested t]: [t] is requested or a transitive
    prerequisite of a requested tool. *)
Definition needed (requested : list toolID) (t : toolID) : Prop :=
  ∃ r, r ∈ requested ∧ rtc edge r t.

(** Every tool of [l] occurs strictly after all of its prerequisites. *)
Definition ordered (l : list toolID) : Prop :=
  ∀ l1 t l2, l = l1 ++ t :: l2 → ∀ d, d ∈ depsOf t → d ∈ l1.

(** Executable form of [ordered]. *)
Fixpoint orderedb_from (seen : list toolID) (l : list toolID) : bool :=
  match l with
  | [] => true
  | t :: l' =>
      forallb (λ d, bool_decide (d ∈ seen)) (depsOf t)
      && orderedb_from (seen ++ [t]) l'
  end.

Definition orderedb (l : list toolID) : bool := orderedb_from [] l.

(** *** The traversal invariant

    [S] is the set of tools whose [visit] is in progress: they are
    marked visited but not yet appended. *)

Definition inv (S : gset string) (st : rstate) : Prop :=
  st.1 = list_to_set st.2 ∪ S
  ∧ NoDup st.2
  ∧ (∀ x, x ∈ S → x ∉ st.2)
  ∧ ordered st.2.

Definition extends (st st' : rstate) (P : string → Prop) : Prop :=
  ∃ ext, st'.2 = st.2 ++ ext ∧ ∀ x, x ∈ ext → P x.

Definition visit_spec (body : string → rstate → option rstate)
    (S : gset string) (t : string) : Prop :=
  ∀ st st', inv S st → (∀ s, s ∈ S → tc edge s t) →
    body t st = Some st' →
    inv S st' ∧ t ∈ st'.2 ∧ extends st st' (rtc edge t).

End WithGraph.

End Resolver.

(** ** The static catalog (installer.go, lines 30-77) *)

Definition depMap : gmap string (list string) :=
  list_to_map [
    (toolXcode,        []);
    (toolHomebrew,     [toolXcode]);
    (toolPyenv,        [toolHomebrew]);
    (toolPython313,    [toolPyenv]);
    (toolPython396,    [toolPyenv]);
    (toolPyenvVenvNCP, [toolPython396]);
    (toolITerm2,       []);
    (toolAllProxy,     [toolPython313; toolHomebrew]);
    (toolSpartaPKI,    []);
    (toolHopsCLI,      [toolPython313; toolSpartaPKI]);
    (toolGNOCHelper,   [toolPyenvVenvNCP; toolAllProxy]);
    (toolStencil,      [toolPyenvVenvNCP]);
    (toolSilencer,     []);
    (toolNCPCLI,       [toolPyenvVenvNCP]);
    (toolJITPass,      [])
  ].

Definition validToolIDs : gmap string string :=
  list_to_map [
    ("xcode",             toolXcode);
    ("homebrew",          toolHomebrew);
    ("pyenv",             toolPyenv);
    ("python313",         toolPython313);
    ("python396",         toolPython396);
    ("pyenv_venv_ncpcli", toolPyenvVenvNCP);
    ("iterm2",            toolITerm2);
    ("allproxy",          toolAllProxy);
    ("sparta_pki",        toolSpartaPKI);
    ("hops_cli",          toolHopsCLI);
    ("gnoc_helper",       toolGNOCHelper);
    ("stencil",           toolStencil);
    ("silencer",          toolSilencer);
    ("ncpcli",            toolNCPCLI);
    ("jit_pass",          toolJITPass)
  ].

Definition phase1Tools : gmap string bool :=
  list_to_map [
    (toolITerm2,       true);
    (toolXcode,        true);
    (toolHomebrew,     true);
    (toolPyenv,        true);
    (toolPython313,    true);
    (toolPython396,    true);
    (toolPyenvVenvNCP, true)
  ].

(** The catalog has no dependency cycle: the length of the longest
    prerequisite chain below a tool is a rank. *)
Definition depRank (t : toolID) : nat :=
  default 0 (list_to_map (M := gmap string nat) [
    (toolXcode, 0); (toolHomebrew, 1); (toolPyenv, 2); (toolPython313, 3);
    (toolPython396, 3); (toolPyenvVenvNCP, 4); (toolITerm2, 0);
    (toolAllProxy, 4); (toolSpartaPKI, 0); (toolHopsCLI, 4);
    (toolGNOCHelper, 5); (toolStencil, 5); (toolSilencer, 0);
    (toolNCPCLI, 5); (toolJITPass, 0)] !! t).

(** [resolveTools] of the program, over its own table. *)
Definition resolveTools (requested : list toolID) : list toolID :=
  Resolver.resolveTools depMap requested.

Definition allTools : list toolID :=
  resolveTools [toolITerm2; toolXcode; toolHomebrew;
                toolPyenv; toolPython313; toolPython396; toolPyenvVenvNCP;
                toolAllProxy; toolSpartaPKI; toolHopsCLI].

Definition gnocTools : list toolID :=
  resolveTools [toolGNOCHelper; toolStencil; toolSilencer; toolNCPCLI; toolJITPass].

(** ** Phase split (main.go, lines 90-98) *)

(** Go's [phase1Tools[t]] is [false] for a key that is not in the map. *)
Definition inPhase1 (t : toolID) : bool := default false (phase1Tools !! t).

(** The loop that appends each tool to [p1] or to [p3]. *)
Definition splitPhases (tools : list toolID) : list toolID * list toolID :=
  fold_left
    (λ '(p1, p3) t, if inPhase1 t then (p1 ++ [t], p3) else (p1, p3 ++ [t]))
    tools ([], []).

(** ** Strings (the functions of package [strings] the program uses) *)

Fixpoint HasPrefix (s pre : string) {struct pre} : bool :=
  match pre, s with
  | EmptyString, _ => true
  | String _ _, EmptyString => false
  | String a pre', String b s' => if Ascii.eqb a b then HasPrefix s' pre' else false
  end.

(** [strings.Contains]. *)
Fixpoint Contains (s substr : string) : bool :=
  HasPrefix s substr
  || match s with
     | EmptyString => false
     | String _ s' => Contains s' substr
     end.

(** Number of positions of [s] at which [substr] occurs. *)
Fixpoint Occurrences (s substr : string) : nat :=
  (if HasPrefix s substr then 1 else 0)
  + match s with
    | EmptyString => 0
    | String _ s' => Occurrences s' substr
    end.

Definition comma : ascii := ","%char.
Definition newline : ascii := ascii_of_nat 10.
Definition nl : string := String newline EmptyString.

(** [strings.Split(s, ",")]: one more piece than there are commas. *)
Fixpoint SplitComma (s : string) : list string :=
  match s with
  | EmptyString => [EmptyString]
  | String c s' =>
      if Ascii.eqb c comma then EmptyString :: SplitComma s'
      else match SplitComma s' with
           | [] => [String c EmptyString]
           | piece :: pieces => String c piece :: pieces
           end
  end.

(** [strings.Join(args, " ")]. *)
Fixpoint JoinSpace (args : list string) : string :=
  match args with
  | [] => ""
  | [a] => a
  | a :: rest => a +:+ " " +:+ JoinSpace rest
  end.

Fixpoint noNewline (s : string) : bool :=
  match s with
  | EmptyString => true
  | String c s' => negb (Ascii.eqb c newline) && noNewline s'
  end.

(** ** Files *)

(** A file of the host as the program sees it: absent, or present with
    its content and whether the process may read it.  A file the
    program creates is readable by its owner (mode 0644). *)
Inductive file :=
  | Absent
  | Present (content : string) (readable : bool).

(** [os.ReadFile]: [None] stands for the error result. *)
Definition ReadFile (f : file) : option string :=
  match f with
  | Present data true => Some data
  | _ => None
  end.

(** [fileContains]: a read error counts as "not contained". *)
Definition fileContains (f : file) (substr : string) : bool :=
  match ReadFile f with
  | None => false
  | Some data => Contains data substr
  end.

(** A write through a descriptor opened with [O_APPEND|O_CREATE|O_WRONLY]. *)
Definition appendFile (f : file) (text : string) : file :=
  match f with
  | Absent => Present text true
  | Present data r => Present (data +:+ text) r
  end.

Definition content_of (f : file) : string :=
  match f with
  | Absent => ""
  | Present data _ => data
  end.

(** ** Log records and console output (logger.go) *)

Inductive logLevel := logINFO | logWARN | logERROR.

(** A record of run.log; its wall-clock timestamp is not modelled. *)
Record logEntry := mkLogEntry {
  Level : logLevel;
  Phase : string;
  Step : string;
  Message : string;
  Fields : gmap string string
}.

(** What the operator sees on stdout and stderr, by the statement that
    printed it. *)
Inductive output :=
  | OutLog (level : logLevel) (msg : string)
  | ErrFatal (msg : string)
  | OutText (text : string)
  | ErrText (text : string)
  | OutProgress (i n : nat) (t : toolID)
  | OutToolDone (t : toolID)
  | ErrUnknownTool (s : string)
  | OutWaitingVPN (h : string)
  | UiDialog (title : string).

(** ** The host and the process state *)

Section Engine.

(** Everything on the machine besides ~/.zshrc, run.log and state.json:
    installed files, packages, the network, the operator. *)
Context {Machine : Type}.

(** What installers and the execution primitive can reach.  [execd] is
    the sequence of external commands started through [runCmd], [slept]
    the seconds spent in [time.Sleep]; [logOpen] tells whether
    [log.encoder] is set. *)
Record host := mkHost {
  zshrc : file;
  zshrcWritable : bool;
  machine : Machine;
  cachedSSHPublicKey : string;
  execd : list (string * list string);
  slept : nat;
  logOpen : bool;
  logPhase : string;
  logf : list logEntry;
  console : list output
}.

(** The process: the host, the Run State ([stateData] in
    memory, [stateFile] on disk, [None] for a nil map or a missing
    file), and the sequence of installers invoked so far. *)
Record world := mkWorld {
  hst : host;
  stateData : option (gmap string string);
  stateFile : option (gmap string string);
  stateWritable : bool;
  invoked : list toolID
}.

Definition setZshrc (f : file) (h : host) : host :=
  mkHost f (zshrcWritable h) (machine h) (cachedSSHPublicKey h) (execd h)
         (slept h) (logOpen h) (logPhase h) (logf h) (console h).

Definition setMachine (m : Machine) (h : host) : host :=
  mkHost (zshrc h) (zshrcWritable h) m (cachedSSHPublicKey h) (execd h)
         (slept h) (logOpen h) (logPhase h) (logf h) (console h).

Definition addExec (c : string * list string) (h : host) : host :=
  mkHost (zshrc h) (zshrcWritable h) (machine h) (cachedSSHPublicKey h)
         (execd h ++ [c]) (slept h) (logOpen h) (logPhase h) (logf h) (console h).

Definition Sleep (secs : nat) (h : host) : host :=
  mkHost (zshrc h) (zshrcWritable h) (machine h) (cachedSSHPublicKey h) (execd h)
         (slept h + secs) (logOpen h) (logPhase h) (logf h) (console h).

Definition setLogOpen (b : bool) (h : host) : host :=
  mkHost (zshrc h) (zshrcWritable h) (machine h) (cachedSSHPublicKey h) (execd h)
         (slept h) b (logPhase h) (logf h) (console h).

Definition logSetPhase (phase : string) (h : host) : host :=
  mkHost (zshrc h) (zshrcWritable h) (machine h) (cachedSSHPublicKey h) (execd h)
         (slept h) (logOpen h) phase (logf h) (console h).

Definition print (o : output) (h : host) : host :=
  mkHost (zshrc h) (zshrcWritable h) (machine h) (cachedSSHPublicKey h) (execd h)
         (slept h) (logOpen h) (logPhase h) (logf h) (console h ++ [o]).

(** logger.go, [logWrite]: nothing is written while the encoder is nil. *)
Definition logWrite (level : logLevel) (step msg : string)
    (fields : gmap string string) (h : host) : host :=
  if logOpen h then
    mkHost (zshrc h) (zshrcWritable h) (machine h) (cachedSSHPublicKey h) (execd h)
           (slept h) (logOpen h) (logPhase h)
           (logf h ++ [mkLogEntry level (logPhase h) step msg fields]) (console h)
  else h.

Definition logInfoF (step msg : string) (fields : gmap string string) (h : host) : host :=
  print (OutLog logINFO msg) (logWrite logINFO step msg fields h).

Definition logInfo (step msg : string) (h : host) : host := logInfoF step msg ∅ h.

Definition logWarn (step msg : string) (h : host) : host :=
  print (OutLog logWARN msg) (logWrite logWARN step msg ∅ h).

Definition logErrorF (step msg : string) (fields : gmap string string) (h : host) : host :=
  print (OutLog logERROR msg) (logWrite logERROR step msg fields h).

Definition logError (step msg : string) (h : host) : host := logErrorF step msg ∅ h.

(** [logFatal] writes, closes the log and ends the process with status 1. *)
Definition logFatal (step msg : string) (h : host) : host :=
  setLogOpen false (print (ErrFatal msg) (logWrite logERROR step msg ∅ h)).

Definition onHost (f : host → host) (w : world) : world :=
  mkWorld (f (hst w)) (stateData w) (stateFile w) (stateWritable w) (invoked w).

Definition setHost (h : host) (w : world) : world := onHost (λ _, h) w.

(** [h'] differs from [h] at most by records appended to run.log,
    lines printed to the console and the current log phase. *)
Definition onlyLogged (h h' : host) : Prop :=
  zshrc h' = zshrc h
  ∧ zshrcWritable h' = zshrcWritable h
  ∧ machine h' = machine h
  ∧ cachedSSHPublicKey h' = cachedSSHPublicKey h
  ∧ execd h' = execd h
  ∧ slept h' = slept h
  ∧ logOpen h' = logOpen h
  ∧ logf h `prefix_of` logf h'
  ∧ console h `prefix_of` console h'.

(** The same for the process: Run State and the installers invoked are
    as they were. *)
Definition onlyLoggedW (w w' : world) : Prop :=
  onlyLogged (hst w) (hst w')
  ∧ stateData w' = stateData w
  ∧ stateFile w' = stateFile w
  ∧ stateWritable w' = stateWritable w
  ∧ invoked w' = invoked w.

(** ** Run State ([runState], main.go lines 273-352) *)

(** [saveRunState].  [stateWritable w = false] stands for a save that
    fails before a byte is written: the path cannot be determined or
    the file cannot be opened, and the file stays as it was.  A write
    that fails after the open, which leaves the file truncated, is not
    modelled; no property below speaks of the file after a failed
    save. *)
Definition saveRunState (w : world) : option string * world :=
  if stateWritable w then
    (None, mkWorld (hst w) (stateData w) (Some (default ∅ (stateData w)))
                   (stateWritable w) (invoked w))
  else (Some "cannot write state.json", w).

Definition isToolCompleted (t : toolID) (w : world) : bool :=
  match stateData w with
  | None => false
  | Some completed => bool_decide (is_Some (completed !! t))
  end.

(** [now] is the formatted result of [time.Now]. *)
Definition markToolCompleted (t : toolID) (now : string) (w : world)
    : option string * world :=
  saveRunState
    (mkWorld (hst w) (Some (<[t := now]> (default ∅ (stateData w))))
             (stateFile w) (stateWritable w) (invoked w)).

(** ** The execution primitive ([runCmd] and its helpers) *)

(** The global [dryRun], set once from the command line. *)
Variable dryRun : bool.

(** [exec.Command(name, args...).Run()] with the given environment:
    combined output, error, new machine. *)
Variable execCommand :
  list string → string → list string → Machine → string * option string * Machine.

Variable baseEnv : list string.
Variable HOME : string.
Variable pathExists : string → Machine → bool.

(** [strings.TrimSpace]. *)
Variable TrimSpace : string → string.

Definition ellipsis : string :=
  String (ascii_of_nat 226) (String (ascii_of_nat 128) (String (ascii_of_nat 166) "")).

Definition truncate (s : string) (n : nat) : string :=
  if Nat.leb (String.length s) n then s else substring 0 n s +:+ ellipsis.

Definition runCmd (step : string) (env : option (list string)) (name : string)
    (args : list string) (h : host) : string * option string * host :=
  if dryRun then
    ("", None, logInfo step ("DRY-RUN: would exec: " +:+ name +:+ " " +:+ JoinSpace args) h)
  else
    let env' := default baseEnv env in
    let h1 := logInfo step ("exec: " +:+ name +:+ " " +:+ JoinSpace args) h in
    let '(raw, err, m') := execCommand env' name args (machine h1) in
    let h2 := addExec (name, args) (setMachine m' h1) in
    let out := TrimSpace raw in
    let fields0 : gmap string string := {[ "cmd" := name +:+ " " +:+ JoinSpace args ]} in
    let fields1 :=
      if decide (out = "") then fields0 else <["output" := truncate out 500]> fields0 in
    match err with
    | Some e =>
        (out, Some (name +:+ " " +:+ JoinSpace args +:+ ": " +:+ e +:+ nl +:+ out),
         logErrorF step "command failed" (<["error" := e]> fields1) h2)
    | None => (out, None, logInfoF step "command ok" fields1 h2)
    end.

(** [appendToZshrc]. *)
Definition appendToZshrc (guardString block : string) (h : host) : option string * host :=
  if fileContains (zshrc h) guardString then
    (None, logInfo "zshrc" ("block already present, skipping: " +:+ guardString) h)
  else if dryRun then
    (None, logInfo "zshrc" ("DRY-RUN: would append block: " +:+ guardString) h)
  else if zshrcWritable h then
    (None, logInfo "zshrc" ("appended block: " +:+ guardString)
             (setZshrc (appendFile (zshrc h) (nl +:+ block +:+ nl)) h))
  else (Some "open .zshrc: permission denied", h).

(** What one call of [appendToZshrc] makes of the file. *)
Definition zshrcAfterAppend (guardString block : string) (f : file) (writable : bool)
    : file :=
  if fileContains f guardString then f
  else if dryRun then f
  else if writable then appendFile f (nl +:+ block +:+ nl)
  else f.

(** Repeated calls with the same arguments. *)
Fixpoint appendToZshrc_times (n : nat) (guardString block : string) (h : host) : host :=
  match n with
  | O => h
  | S n' => appendToZshrc_times n' guardString block (appendToZshrc guardString block h).2
  end.

(** ** Installers and the phase engine (installer.go, main.go) *)

(** The Installer Registry, one procedure per tool of the [switch] in
    [runTool]: error result and new host. *)
Variable install : toolID → string → host → option string * host.

(** The tools the [switch] of [runTool] has a case for. *)
Definition registered : list toolID :=
  [toolITerm2; toolXcode; toolHomebrew; toolPyenv; toolPython313; toolPython396;
   toolPyenvVenvNCP; toolAllProxy; toolSpartaPKI; toolHopsCLI; toolGNOCHelper;
   toolStencil; toolSilencer; toolNCPCLI; toolJITPass].

(** installer.go, [runTool]. *)
Definition runTool (t : toolID) (guid : string) (w : world) : option string * world :=
  let w1 := onHost (logInfo t ("installing: " +:+ t)) w in
  if dryRun then
    (None, onHost (logInfo t ("dry-run mode: would install " +:+ t)) w1)
  else
    let '(err, w2) :=
      if bool_decide (t ∈ registered) then
        let '(e, h') := install t guid (hst w1) in
        (e, mkWorld h' (stateData w1) (stateFile w1) (stateWritable w1) (invoked w1 ++ [t]))
      else (Some ("unknown tool: " +:+ t), w1) in
    match err with
    | Some e => (err, onHost (logError t ("failed: " +:+ e)) w2)
    | None => (None, onHost (logInfo t "done") w2)
    end.

(** main.go, [runPhase]: the loop from position [i] of [n] tools. *)
Fixpoint runPhase_from (i n : nat) (tools : list toolID) (guid : string) (w : world)
    : option string * world :=
  match tools with
  | [] => (None, w)
  | t :: rest =>
      match runTool t guid (onHost (print (OutProgress (i + 1) n t)) w) with
      | (Some e, w') => (Some (t +:+ " failed: " +:+ e), w')
      | (None, w') => runPhase_from (S i) n rest guid (onHost (print (OutToolDone t)) w')
      end
  end.

Definition runPhase (tools : list toolID) (guid : string) (w : world)
    : option string * world :=
  runPhase_from 0 (length tools) tools guid w.

(** ** The Network Transition Gate (installer.go, [waitForVPN]) *)

Definition vpnHosts : list string :=
  ["artifactory.oci.oraclecorp.com:443"; "bitbucket.oci.oraclecorp.com:7999"].

(** One polling round: the hosts are dialled in order and the round
    stops at the first one that does not connect. *)
Fixpoint pollRound (dial : string → bool) (hosts : list string) : bool :=
  match hosts with
  | [] => true
  | h :: rest => if dial h then pollRound dial rest else false
  end.

(** The endless [for] loop, cut after [fuel] rounds: [dial r h] is the
    result of [net.DialTimeout] to [h] in round [r]; the result names
    the round that unblocked the gate, [None] that the gate is still
    blocked. *)
Fixpoint pollLoop (fuel : nat) (dial : nat → string → bool) (round : nat) (h : host)
    : option (nat * host) :=
  match fuel with
  | O => None
  | S fuel' =>
      if pollRound (dial round) vpnHosts then
        Some (round, logInfo "vpn_wait" "VPN connectivity confirmed" h)
      else
        pollLoop fuel' dial (S round)
          (Sleep 5 (print (OutWaitingVPN "artifactory.oci.oraclecorp.com:443") h))
  end.

(** [waitForVPN]: [Some (None, _)] is the return of simulate-only mode,
    which polls nothing. *)
Definition waitForVPN (fuel : nat) (dial : nat → string → bool) (h : host)
    : option (option nat * host) :=
  if dryRun then
    Some (None, logInfo "vpn_wait"
                  "dry-run mode: would poll internal hosts for VPN connectivity" h)
  else
    match pollLoop fuel dial 0 (logInfo "vpn_wait" "polling for VPN connectivity" h) with
    | Some (round, h') => Some (Some round, h')
    | None => None
    end.

(** ** Shell start-up blocks (installer.go, preflight.go) *)

Definition dq : string := String (ascii_of_nat 34) "".

Fixpoint lines (ls : list string) : string :=
  match ls with
  | [] => ""
  | [l] => l
  | l :: rest => l +:+ nl +:+ lines rest
  end.

Definition homebrewBlock : string :=
  lines ["# BEGIN: Homebrew";
         "eval " +:+ dq +:+ "$(/opt/homebrew/bin/brew shellenv)" +:+ dq;
         "# END: Homebrew"].

Definition pyenvBlock : string :=
  lines ["# BEGIN: pyenv";
         "export PYENV_ROOT=" +:+ dq +:+ "$HOME/.pyenv" +:+ dq;
         "export PATH=" +:+ dq +:+ "$PYENV_ROOT/bin:$PATH" +:+ dq;
         "eval " +:+ dq +:+ "$(pyenv init -)" +:+ dq;
         "eval " +:+ dq +:+ "$(pyenv virtualenv-init -)" +:+ dq;
         "# END: pyenv"].

(** installer.go, [writeBaseZshrcBlocks]. *)
Definition writeBaseZshrcBlocks (h : host) : option string * host :=
  match appendToZshrc "# BEGIN: Homebrew" homebrewBlock h with
  | (Some e, h1) => (Some e, h1)
  | (None, h1) => appendToZshrc "# BEGIN: pyenv" pyenvBlock h1
  end.

(** [firstPmsetValue key fallback]: a query of the power settings. *)
Variable firstPmsetValue : string → string → Machine → string.

Definition sleepBlock (sleep hibernate disableSleep : string) : string :=
  lines ["# BEGIN: Sleep Controls";
         "alias ns='sudo pmset -a sleep 0; sudo pmset -a hibernatemode 0; sudo pmset -a disablesleep 1;'";
         "alias ys='sudo pmset -a sleep " +:+ sleep +:+ "; sudo pmset -a hibernatemode "
           +:+ hibernate +:+ "; sudo pmset -a disablesleep " +:+ disableSleep +:+ ";'";
         "# END: Sleep Controls"].

(** preflight.go, [configureNoSleepAliases]. *)
Definition configureNoSleepAliases (h : host) : option string * host :=
  let sleep := firstPmsetValue "sleep" "10" (machine h) in
  let hibernate := firstPmsetValue "hibernatemode" "3" (machine h) in
  let disableSleep := firstPmsetValue "disablesleep" "0" (machine h) in
  let h1 := print (OutText "Sleep Settings") h in
  appendToZshrc "# BEGIN: Sleep Controls" (sleepBlock sleep hibernate disableSleep) h1.

(** ** Tool selection (main.go) *)

(** main.go, [parseOnlyFlag]: the requested tools in order, and the
    host with one stderr line per unknown identifier. *)
Fixpoint parseOnlyItems (items : list string) (requested : list toolID) (h : host)
    : list toolID * host :=
  match items with
  | [] => (requested, h)
  | s :: rest =>
      let s' := TrimSpace s in
      match validToolIDs !! s' with
      | Some t => parseOnlyItems rest (requested ++ [t]) h
      | None => parseOnlyItems rest requested (print (ErrUnknownTool s') h)
      end
  end.

Definition parseOnlyFlag (raw : string) (h : host) : list toolID * host :=
  let '(requested, h') := parseOnlyItems (SplitComma raw) [] h in
  (resolveTools requested, h').

(** The identifiers of an [--only] list, the unknown ones among them,
    and the tools the known ones name. *)
Definition onlyIdentifiers (raw : string) : list string := TrimSpace <$> SplitComma raw.

Definition unknownIdentifiers (raw : string) : list string :=
  filter (λ s, validToolIDs !! s = None) (onlyIdentifiers raw).

Definition knownTools (raw : string) : list toolID :=
  omap (λ s, validToolIDs !! s) (onlyIdentifiers raw).

Definition hasTool (tools : list toolID) (target : toolID) : bool :=
  existsb (String.eqb target) tools.

Definition bastionConfigsOption : string := "bastion_configs (coming soon)".

(** The choice dialog: the names the operator selected, or an error. *)
Variable uiChooseFromList :
  string → string → list string → list string → Machine → list string + string.

(** main.go, [toolIDsToNames]. *)
Fixpoint toolIDsToNames_from (seen : gset string) (ids : list toolID) : list string :=
  match ids with
  | [] => []
  | id :: rest =>
      if decide (id ∈ seen) then toolIDsToNames_from seen rest
      else id :: toolIDsToNames_from ({[id]} ∪ seen) rest
  end.

Definition toolIDsToNames (ids : list toolID) : list string := toolIDsToNames_from ∅ ids.

(** [sort.Strings]: insertion into a list sorted by [String.leb]. *)
Fixpoint insertSorted (s : string) (l : list string) : list string :=
  match l with
  | [] => [s]
  | x :: l' => if String.leb s x then s :: l else x :: insertSorted s l'
  end.

Definition sortStrings (l : list string) : list string := foldr insertSorted [] l.

(** main.go, [promptToolSelection]. *)
Definition promptToolSelection (defaultIncludeGNOC : bool) (h : host)
    : (list toolID * bool) + string :=
  let optionNames :=
    sortStrings ((map_to_list validToolIDs).*1 ++ [bastionConfigsOption]) in
  let defaultSelection :=
    toolIDsToNames allTools ++ (if defaultIncludeGNOC then [toolGNOCHelper] else []) in
  match uiChooseFromList "CHS Onboard Tool Selection"
          "Choose which tools to install. If gnoc_helper is selected, stencil/silencer/jit_pass are included automatically."
          optionNames defaultSelection (machine h) with
  | inr e => inr e
  | inl selectedNames =>
      let selected :=
        omap (λ name, if decide (name = bastionConfigsOption) then None
                      else validToolIDs !! name) selectedNames in
      let bastionSelected := bool_decide (bastionConfigsOption ∈ selectedNames) in
      let selected' :=
        if hasTool selected toolGNOCHelper
        then selected ++ [toolStencil; toolSilencer; toolJITPass] else selected in
      inl (selected', bastionSelected)
  end.

(** ** Steps between the phases (installer.go, preflight.go) *)

Definition setPyenvGlobal (versions : list string) (h : host) : option string * host :=
  let '(_, err, h') :=
    runCmd "pyenv_global" None (HOME +:+ "/.pyenv/bin/pyenv") ("global" :: versions) h in
  (err, h').

Definition ensureSSHPass (h : host) : option string * host :=
  if pathExists "/opt/homebrew/bin/sshpass" (machine h)
     || pathExists "/usr/local/bin/sshpass" (machine h) then
    (None, logInfo "sshpass" "sshpass already installed" h)
  else
    let brew := "/opt/homebrew/bin/brew" in
    if negb (pathExists brew (machine h)) then
      (Some ("homebrew not found at " +:+ brew +:+ "; required for sshpass install"), h)
    else
      let '(_, err, h1) :=
        runCmd "sshpass" None brew ["install"; "hudochenkov/sshpass/sshpass"] h in
      let '(failed, h2) :=
        match err with
        | None => (None, h1)
        | Some e =>
            let '(_, fallbackErr, h2) := runCmd "sshpass" None brew ["install"; "sshpass"] h1 in
            match fallbackErr with
            | None => (None, h2)
            | Some fe =>
                (Some ("sshpass install failed: tap formula error: " +:+ e
                       +:+ "; fallback error: " +:+ fe), h2)
            end
        end in
      match failed with
      | Some e => (Some e, h2)
      | None =>
          if negb (pathExists "/opt/homebrew/bin/sshpass" (machine h2))
             && negb (pathExists "/usr/local/bin/sshpass" (machine h2)) then
            (Some "sshpass install completed but binary not found", h2)
          else (None, h2)
      end.

(** The dialog that shows the public key: its error result. *)
Variable uiShowSSHKey : string → Machine → option string.

Definition postVPNSSHKeyStep (h : host) : option string * host :=
  if decide (cachedSSHPublicKey h = "") then
    (None, logWarn "ssh_key"
             "no cached SSH key found from preflight; skipping Bitbucket prompt" h)
  else if dryRun then
    (None, logInfo "ssh_key"
             "dry-run mode: would prompt user to add SSH key in Bitbucket now" h)
  else
    let h1 := logInfo "ssh_key" "presenting SSH public key for Bitbucket add" h in
    (uiShowSSHKey (cachedSSHPublicKey h1) (machine h1), print (UiDialog "SSH Key") h1).

(** The reachability check of the public internet: its error result. *)
Variable checkPublicInternet : Machine → option string.

(** ** The run (main.go, [main]) *)

Inductive preflightResult :=
  | PreflightOK (guid : string)
  | PreflightError (e : string)
  | PreflightExit (status : nat).

Record flags := mkFlags {
  gnocFlag : bool;
  onlyFlag : string;
  listFlag : bool
}.

(** [logInit]: whether run.log could be opened. *)
Variable logInitOk : bool.

(** The result of [sudo -v] in [startSudoKeepalive]; the keep-alive
    goroutine it starts is not modelled. *)
Variable startSudoKeepalive : Machine → option string.

(** preflight.go, [preflightRun]: it talks to the network and to the
    operator and may create an SSH key; it returns the operator's
    identifier or an error, or (after the account rename of
    [preflightIdentity]) ends the process itself. *)
Variable preflightRun : host → preflightResult * host.

(** The responses of the private network, by polling round and host. *)
Variable dial : nat → string → bool.

(** [logFatal] and [os.Exit(1)]. *)
Definition fatal (step msg : string) (w : world) : option (nat * world) :=
  Some (1, onHost (logFatal step msg) w).

(** main.go, lines 90-155: the phase split, phase 1, the hand-over to
    the private network and phase 3.  [None]: still blocked at the
    gate after [fuel] polling rounds. *)
Definition pipeline (tools : list toolID) (bastionConfigsSelected : bool)
    (guid : string) (fuel : nat) (w : world) : option (nat * world) :=
  let '(p1, p3) := splitPhases tools in
  let w := onHost (λ h, print (OutText "Phase 1: Public Internet (VPN OFF)")
                          (logSetPhase "phase1" h)) w in
  match runPhase p1 guid w with
  | (Some e, w) => fatal "phase1" e w
  | (None, w) =>
      let w :=
        if dryRun then
          onHost (logInfo "pyenv_global"
                    "dry-run mode: would set pyenv global 3.13.2 ncpcli") w
        else
          match setPyenvGlobal ["3.13.2"; "ncpcli"] (hst w) with
          | (Some e, h) =>
              setHost (logWarn "pyenv_global" ("pyenv global set failed: " +:+ e) h) w
          | (None, h) => setHost h w
          end in
      let sshpass : option string * world :=
        if hasTool tools toolGNOCHelper then
          let w := onHost (print (OutText "Ensuring sshpass is installed")) w in
          if dryRun then
            (None, onHost (logInfo "sshpass" "dry-run mode: would install/verify sshpass") w)
          else
            let '(e, h) := ensureSSHPass (hst w) in (e, setHost h w)
        else (None, w) in
      match sshpass with
      | (Some e, w) => fatal "sshpass" e w
      | (None, w) =>
          let bastionNote (w : world) : world :=
            if bastionConfigsSelected then
              onHost (logWarn "bastion_configs"
                "Bastion configs selected, but setup is not implemented yet; skipping") w
            else w in
          if decide (p3 = []) then
            Some (0, onHost (print (OutText "Done. No Phase 3 tools selected."))
                       (bastionNote w))
          else
            let w := onHost (λ h, print (UiDialog "Connect to VPN")
                       (print (OutText "Phase 2: Connect to VPN") (logSetPhase "phase2" h))) w in
            match waitForVPN fuel dial (hst w) with
            | None => None
            | Some (_, h) =>
                let w := setHost (print (OutText "VPN confirmed") h) w in
                match postVPNSSHKeyStep (hst w) with
                | (Some e, h) => fatal "ssh_key" e (setHost h w)
                | (None, h) =>
                    let w := setHost h w in
                    let w :=
                      match checkPublicInternet (machine (hst w)) with
                      | Some _ =>
                          onHost (logWarn "net_check"
                            "public internet currently unreachable while on VPN (this can be expected before OCNA/full VPN)") w
                      | None =>
                          onHost (logInfo "net_check" "public internet reachable while on VPN") w
                      end in
                    let w := onHost (λ h, print (OutText "Phase 3: Internal Tools (VPN ON)")
                                            (logSetPhase "phase3" h)) w in
                    match runPhase p3 guid w with
                    | (Some e, w) => fatal "phase3" e w
                    | (None, w) =>
                        Some (0, onHost (λ h, logInfo "done" "completed successfully"
                                   (print (OutText "chs-onboard complete") h))
                                   (bastionNote w))
                    end
                end
            end
      end
  end.


(** main.go, lines 16-88, followed by [pipeline]: exit status and
    final state.  [--list] prints the identifiers in the order of the
    map here; Go leaves that order open. *)
Definition main (fl : flags) (fuel : nat) (w : world) : option (nat * world) :=
  if listFlag fl then
    Some (0, onHost (λ h, foldr (λ name, print (OutText ("  " +:+ name)))
                            (print (OutText "Available tool IDs (--only=id1,id2,...):") h)
                            (reverse (map_to_list validToolIDs).*1)) w)
  else if negb logInitOk then
    Some (1, onHost (print (ErrText "failed to init logger")) w)
  else
    let w := onHost (λ h, logInfo "session_start" "chs-onboard started"
                            (setLogOpen true h)) w in
    let w := onHost (print (OutText "banner")) w in
    let w := if dryRun
             then onHost (print (OutText "[DRY-RUN] No system changes will be made.")) w
             else w in
    let sudo : option string * world :=
      if negb dryRun then
        let w := onHost (print (OutText "[sudo] chs-onboard needs administrator privileges:")) w in
        match startSudoKeepalive (machine (hst w)) with
        | Some e => (Some ("sudo auth failed: " +:+ e), w)
        | None => (None, onHost (logInfo "sudo" "sudo credentials cached") w)
        end
      else
        (None, onHost (logInfo "sudo" "dry-run mode: skipping sudo credential caching") w) in
    match sudo with
    | (Some e, w) => fatal "sudo" ("sudo auth failed: " +:+ e) w
    | (None, w) =>
        let w := onHost (λ h, print (OutText "Preflight") (logSetPhase "preflight" h)) w in
        match preflightRun (hst w) with
        | (PreflightExit status, h) => Some (status, setHost h w)
        | (PreflightError e, h) => fatal "preflight" e (setHost h w)
        | (PreflightOK guid, h) =>
            match writeBaseZshrcBlocks h with
            | (Some e, h) => fatal "zshrc" e (setHost h w)
            | (None, h) =>
                match configureNoSleepAliases h with
                | (Some e, h) => fatal "sleep_alias" e (setHost h w)
                | (None, h) =>
                    let w := setHost h w in
                    if negb (bool_decide (onlyFlag fl = "")) then
                      let '(tools, h) := parseOnlyFlag (onlyFlag fl) (hst w) in
                      let w := setHost h w in
                      if decide (tools = []) then
                        Some (1, onHost (print (ErrText
                          "No valid tool IDs provided. Use --list to see available tools.")) w)
                      else pipeline tools false guid fuel w
                    else
                      match promptToolSelection (gnocFlag fl) (hst w) with
                      | inr e => fatal "tool_select" e w
                      | inl (requested, bastionSelected) =>
                          if bool_decide (requested = []) && negb bastionSelected then
                            Some (0, onHost (print (OutText "No tools selected. Exiting.")) w)
                          else pipeline (resolveTools requested) bastionSelected guid fuel w
                      end
                end
            end
        end
    end.

End Engine.

(** main.go, lines 28-54: the host on which [main] calls
    [preflightRun], once the logger is open and, outside simulate-only
    mode, sudo has been granted. *)
Definition hostAtPreflight {Machine : Type} (dryRun : bool) (h : @host Machine)
    : @host Machine :=
  let h := logInfo "session_start" "chs-onboard started" (setLogOpen true h) in
  let h := print (OutText "banner") h in
  let h :=
    if dryRun then
      logInfo "sudo" "dry-run mode: skipping sudo credential caching"
        (print (OutText "[DRY-RUN] No system changes will be made.") h)
    else
      logInfo "sudo" "sudo credentials cached"
        (print (OutText "[sudo] chs-onboard needs administrator privileges:") h) in
  print (OutText "Preflight") (logSetPhase "preflight" h).

(** ** Concrete hosts and collaborators for the examples *)

(** A host without ~/.zshrc, with an open log and an empty Run State. *)
Definition freshHost : @host unit :=
  mkHost Absent true tt "" [] 0 true "" [] [].

Definition freshWorld : @world unit :=
  mkWorld freshHost (Some ∅) None true [].

(** Run State as an earlier run that installed iTerm2 would have left it. *)
Definition resumedWorld : @world unit :=
  mkWorld freshHost (Some {[ toolITerm2 := "2026-01-01T00:00:00Z" ]})
          (Some {[ toolITerm2 := "2026-01-01T00:00:00Z" ]}) true [].

(** Every command succeeds silently. *)
Definition quietExec (env : list string) (name : string) (args : list string) (m : unit)
    : string * option string * unit := ("", None, m).

(** Every installer succeeds and changes nothing. *)
Definition quietInstall (t : toolID) (guid : string) (h : @host unit)
    : option string * @host unit := (None, h).

(** The installer of [bad] fails, the others succeed. *)
Definition failingInstall (bad : toolID) (t : toolID) (guid : string) (h : @host unit)
    : option string * @host unit :=
  if decide (t = bad) then (Some "exit status 1", h) else (None, h).

(** Stand-in for [strings.TrimSpace] on strings without outer blanks. *)
Definition noTrim (s : string) : string := s.

(** The preflight succeeds for operator [jsmith]. *)
Definition quietPreflight (h : @host unit) : preflightResult * @host unit :=
  (PreflightOK "jsmith", h).

(** The private network never answers. *)
Definition vpnDown (round : nat) (h : string) : bool := false.

(** The private network answers from round 2 on; in round 1 only the
    first endpoint does. *)
Definition vpnUpAt2 (round : nat) (h : string) : bool :=
  match round with
  | 0 => false
  | 1 => String.eqb h "artifactory.oci.oraclecorp.com:443"
  | _ => true
  end.

(** [main] with these collaborators, outside simulate-only mode. *)
Definition exampleMain (install : toolID → string → @host unit → option string * @host unit)
    (fl : flags) (fuel : nat) (w : @world unit) : option (nat * @world unit) :=
  main false quietExec [] "/Users/jsmith" (λ _ _, false) noTrim install
       (λ _ fallback _, fallback) (λ _ _ _ _ _, inl []) (λ _ _, None) (λ _, None)
       true (λ _, None) quietPreflight vpnDown fl fuel w.


(** ** Further helpers and installers *)

Section Installers.

Context {Machine : Type}.
Variable dryRun : bool.
Variable execCommand :
  list string → string → list string → Machine → string * option string * Machine.
Variable baseEnv : list string.
Variable HOME : string.
Variable pathExists : string → Machine → bool.
Variable TrimSpace : string → string.

(** [sudoCmd]: the command under sudo. *)
Definition sudoCmd (step : string) (env : option (list string)) (name : string)
    (args : list string) (h : @host Machine) : string * option string * @host Machine :=
  runCmd dryRun execCommand baseEnv TrimSpace step env "sudo" (name :: args) h.

(** [gitCloneOrPull]: pull when the working copy exists, clone otherwise. *)
Definition gitCloneOrPull (step remote dir : string) (h : @host Machine)
    : option string * @host Machine :=
  if pathExists (dir +:+ "/.git") (machine h) then
    let h1 := logInfo step ("repo exists, pulling: " +:+ dir) h in
    let '(_, err, h2) :=
      runCmd dryRun execCommand baseEnv TrimSpace step None "git" ["-C"; dir; "pull"] h1 in
    (err, h2)
  else
    let h1 := logInfo step ("cloning " +:+ remote +:+ " → " +:+ dir) h in
    let '(_, err, h2) :=
      runCmd dryRun execCommand baseEnv TrimSpace step None "git" ["clone"; remote; dir] h1 in
    (err, h2).

(** [pyenvEnv]: the base environment without its [PATH], [VIRTUAL_ENV]
    and [PYENV_VERSION] entries, followed by those of the virtualenv. *)
Definition pyenvEnv (venv : string) : list string :=
  let pyenvRoot := HOME +:+ "/.pyenv" in
  List.filter
    (λ e, negb (HasPrefix e "PATH=") && negb (HasPrefix e "VIRTUAL_ENV=")
          && negb (HasPrefix e "PYENV_VERSION="))
    baseEnv
  ++ ["PYENV_VERSION=" +:+ venv;
      "VIRTUAL_ENV=" +:+ pyenvRoot +:+ "/versions/" +:+ venv;
      "PATH=" +:+ pyenvRoot +:+ "/versions/" +:+ venv +:+ "/bin:"
        +:+ "/opt/homebrew/bin:/opt/homebrew/sbin:/opt/local/bin:/opt/local/sbin:"
        +:+ pyenvRoot +:+ "/bin:" +:+ pyenvRoot +:+ "/shims:"
        +:+ "/usr/local/bin:/usr/bin:/bin:/usr/sbin:/sbin"].

(** installer.go, [installPyenv]. *)
Definition installPyenv (h : @host Machine) : option string * @host Machine :=
  appendToZshrc dryRun "# BEGIN: pyenv" pyenvBlock h.

(** installer.go, [installPythonVersion]. *)
Definition installPythonVersion (version : string) (h : @host Machine)
    : option string * @host Machine :=
  let versionDir := HOME +:+ "/.pyenv/versions/" +:+ version in
  if pathExists versionDir (machine h) then
    (None, logInfo "pyenv" ("Python " +:+ version +:+ " already installed") h)
  else
    let '(_, err, h') :=
      runCmd dryRun execCommand baseEnv TrimSpace "pyenv" None
             (HOME +:+ "/.pyenv/bin/pyenv") ["install"; version] h in
    (err, h').

(** installer.go, [installPyenvVenv]. *)
Definition installPyenvVenv (venvName pythonVersion : string) (h : @host Machine)
    : option string * @host Machine :=
  let venvDir := HOME +:+ "/.pyenv/versions/" +:+ venvName in
  if pathExists venvDir (machine h) then
    (None, logInfo "pyenv" ("virtualenv " +:+ venvName +:+ " already exists") h)
  else
    let '(_, err, h') :=
      runCmd dryRun execCommand baseEnv TrimSpace "pyenv_venv" None
             (HOME +:+ "/.pyenv/bin/pyenv") ["virtualenv"; pythonVersion; venvName] h in
    (err, h').

(** installer.go, [ensureOpenSCSymlinks]. *)
Definition ensureOpenSCSymlinks (h : @host Machine) : option string * @host Machine :=
  let src := "/Library/OpenSC/lib/opensc-pkcs11.so" in
  let dst := "/usr/local/lib/opensc-pkcs11.so" in
  if negb (pathExists src (machine h)) then
    (None, logWarn "opensc" "source opensc-pkcs11.so not found, skipping symlink" h)
  else if pathExists dst (machine h) then
    (None, logInfo "opensc" "symlink already exists" h)
  else
    match sudoCmd "opensc" None "mkdir" ["-pv"; "/usr/local/lib"] h with
    | (_, Some e, h1) => (Some e, h1)
    | (_, None, h1) =>
        let '(_, err, h2) := sudoCmd "opensc" None "ln" ["-v"; src; dst] h1 in
        (err, h2)
    end.

Definition brewPackages : list string :=
  ["openssl"; "yubico-piv-tool"; "jq"; "pyenv"; "pyenv-virtualenv"].

(** The loop of [ensureBrewPackages] over the packages. *)
Fixpoint brewInstallAll (pkgs : list string) (h : @host Machine)
    : option string * @host Machine :=
  match pkgs with
  | [] => (None, h)
  | pkg :: rest =>
      match runCmd dryRun execCommand baseEnv TrimSpace "homebrew" None
                   "/opt/homebrew/bin/brew" ["install"; pkg] h with
      | (_, Some e, h1) => (Some ("brew install " +:+ pkg +:+ ": " +:+ e), h1)
      | (_, None, h1) => brewInstallAll rest h1
      end
  end.

(** installer.go, [ensureBrewPackages]. *)
Definition ensureBrewPackages (h : @host Machine) : option string * @host Machine :=
  match brewInstallAll brewPackages h with
  | (Some e, h1) => (Some e, h1)
  | (None, h1) =>
      let '(_, err, h2) :=
        runCmd dryRun execCommand baseEnv TrimSpace "homebrew" None
               "/opt/homebrew/bin/brew" ["install"; "--cask"; "opensc"] h1 in
      let h3 :=
        match err with
        | Some _ =>
            logWarn "homebrew" "opensc cask install failed (may already be installed)" h2
        | None => h2
        end in
      ensureOpenSCSymlinks h3
  end.

Definition homebrewInstallScript : string :=
  "NONINTERACTIVE=1 curl -fsSL https://raw.githubusercontent.com/Homebrew/install/HEAD/install.sh | bash".

(** installer.go, [installHomebrew]. *)
Definition installHomebrew (h : @host Machine) : option string * @host Machine :=
  if pathExists "/opt/homebrew/bin/brew" (machine h) then
    ensureBrewPackages (logInfo "homebrew" "Homebrew already installed" h)
  else
    match runCmd dryRun execCommand baseEnv TrimSpace "homebrew" None "/bin/bash"
                 ["-c"; homebrewInstallScript] (print (OutText "Installing Homebrew...") h)
    with
    | (_, Some e, h1) => (Some e, h1)
    | (_, None, h1) => ensureBrewPackages h1
    end.

(** installer.go, [installSilencer]. *)
Definition installSilencer (h : @host Machine) : option string * @host Machine :=
  let dir := HOME +:+ "/silencer" in
  match gitCloneOrPull "silencer"
          "ssh://git@bitbucket.oci.oraclecorp.com:7999/nse/silencer.git" dir h with
  | (Some e, h1) => (Some e, h1)
  | (None, h1) =>
      match runCmd dryRun execCommand baseEnv TrimSpace "silencer" None "make"
                   ["-C"; dir; "install"] h1 with
      | (_, Some e, h2) => (Some e, h2)
      | (_, None, h2) =>
          let '(_, err, h3) :=
            runCmd dryRun execCommand baseEnv TrimSpace "silencer" None "make"
                   ["-C"; dir; "link"] h2 in
          (err, h3)
      end
  end.

End Installers.

(** ** Run State, continued *)

(** [resetRunState]: an empty record, persisted. *)
Definition resetRunState {Machine : Type} (w : @world Machine)
    : option string * @world Machine :=
  saveRunState (mkWorld (hst w) (Some ∅) (stateFile w) (stateWritable w) (invoked w)).

(** ** The clean-up registry

    The registered functions act on a state [St]; a nil function is
    [None].  The mutex is not modelled: one flow of control. *)

Record cleanupState (St : Type) := mkCleanup {
  cleanupFns : list (St → St);
  cleanupRun : bool
}.

Arguments mkCleanup {St} _ _.
Arguments cleanupFns {St} _.
Arguments cleanupRun {St} _.

Definition registerCleanup {St : Type} (fn : option (St → St)) (c : cleanupState St)
    : cleanupState St :=
  match fn with
  | None => c
  | Some f => mkCleanup (cleanupFns c ++ [f]) (cleanupRun c)
  end.

(** [runCleanup]: once, the functions from the last registered to the first. *)
Definition runCleanup {St : Type} (c : cleanupState St) (s : St) : cleanupState St * St :=
  if cleanupRun c then (c, s)
  else (mkCleanup (cleanupFns c) true,
        fold_left (λ s f, f s) (reverse (cleanupFns c)) s).

(** * Properties *)

(** ** Loops *)

Lemma range_loop_app {A St : Type} (body : A → St → option St) xs ys st :
  range_loop body (xs ++ ys) st =
  match range_loop body xs st with
  | Some st' => range_loop body ys st'
  | None => None
  end.
Proof.
  revert st. induction xs as [|x xs IH]; intros st; simpl; [done|].
  destruct (body x st); [apply IH | done].
Qed.

(** ** The resolver *)

Module ResolverFacts.
Import Resolver.

Section WithGraph.

Variable deps : gmap string (list string).

Lemma depsOf_dom t : depsOf deps t ≠ [] → t ∈ dom deps.
Proof.
  unfold depsOf. intros H. apply elem_of_dom.
  destruct (deps !! t); [eauto | done].
Qed.

(** *** Termination: the fuel of [resolveTools] is never exhausted *)

Lemma visit_total fuel : ∀ (S : gset string) t visited order,
  S ⊆ dom deps → S ⊆ visited → size deps < size S + fuel →
  ∃ visited' order',
    visit deps fuel t (visited, order) = Some (visited', order')
    ∧ visited ⊆ visited'.
Proof.
  induction fuel as [|fuel IH]; intros S t visited order Hdom Hvis Hsz;
    simpl; destruct (decide (t ∈ visited)) as [Hin|Hnin]; eauto.
  - apply subseteq_size in Hdom. rewrite size_dom in Hdom. lia.
  - destruct (decide (depsOf deps t = [])) as [Hnil|Hne].
    { rewrite Hnil. simpl. eexists _, _. split; [done | set_solver]. }
    apply depsOf_dom in Hne.
    assert (Hloop : ∀ ds vis ord, {[t]} ∪ S ⊆ vis →
      ∃ vis' ord', range_loop (visit deps fuel) ds (vis, ord) = Some (vis', ord')
                   ∧ vis ⊆ vis').
    { induction ds as [|d ds IHds]; intros vis ord Hsub; cbn [range_loop]; [eauto|].
      destruct (IH ({[t]} ∪ S) d vis ord) as (vis1 & ord1 & Hd & Hmono);
        [set_solver | done | |].
      - rewrite size_union by set_solver. rewrite size_singleton. lia.
      - rewrite Hd.
        destruct (IHds vis1 ord1) as (vis2 & ord2 & Hds & Hmono2); [set_solver|].
        rewrite Hds. eexists _, _. split; [done | set_solver]. }
    destruct (Hloop (depsOf deps t) ({[t]} ∪ visited) order)
      as (vis' & ord' & Hrun & Hmono); [set_solver|].
    rewrite Hrun. eexists _, _. split; [done | set_solver].
Qed.

Lemma resolve_total requested :
  is_Some (resolve deps (S (size deps)) requested).
Proof.
  unfold resolve.
  assert (H : ∀ rs vis ord,
    ∃ st', range_loop (visit deps (S (size deps))) rs (vis, ord) = Some st').
  { induction rs as [|r rs IH]; intros vis ord; cbn [range_loop]; [eauto|].
    destruct (visit_total (S (size deps)) ∅ r vis ord)
      as (vis1 & ord1 & Hr & _); [set_solver | set_solver | |].
    - rewrite size_empty. lia.
    - rewrite Hr. apply IH. }
  destruct (H requested ∅ []) as [st' Hst]. rewrite Hst. simpl. eauto.
Qed.

Lemma resolveTools_eq requested out :
  resolve deps (S (size deps)) requested = Some out →
  resolveTools deps requested = out.
Proof. unfold resolveTools. by intros ->. Qed.

(** *** Orders *)

Lemma ordered_nil : ordered deps [].
Proof. intros l1 t l2 H. by destruct l1. Qed.

Lemma ordered_snoc l t :
  ordered deps l → (∀ d, d ∈ depsOf deps t → d ∈ l) → ordered deps (l ++ [t]).
Proof.
  intros Hl Ht l1 u l2 Heq d Hd.
  destruct l2 as [|x l2 _] using rev_ind.
  - apply app_inj_tail in Heq as [-> ->]. by apply Ht.
  - rewrite app_comm_cons, app_assoc in Heq.
    apply app_inj_tail in Heq as [-> _]. by eapply Hl.
Qed.

Lemma ordered_prefix l l' : ordered deps (l ++ l') → ordered deps l.
Proof.
  intros H l1 t l2 -> d Hd. eapply (H l1 t (l2 ++ l')); [|done].
  by rewrite <- app_assoc.
Qed.

(** An ordered list is closed under prerequisites. *)
Lemma ordered_closed l t d :
  ordered deps l → t ∈ l → edge deps t d → d ∈ l.
Proof.
  intros Hl Ht Hd. apply list_elem_of_split in Ht as (l1 & l2 & ->).
  apply elem_of_app. left. by eapply Hl.
Qed.

Lemma ordered_closed_rtc l t d :
  ordered deps l → t ∈ l → rtc (edge deps) t d → d ∈ l.
Proof.
  intros Hl Ht Hd. induction Hd as [|x y z Hxy _ IH]; [done|].
  apply IH. by eapply ordered_closed.
Qed.

Lemma orderedb_from_spec l : ∀ seen,
  orderedb_from deps seen l = true →
  ∀ l1 t l2, l = l1 ++ t :: l2 → ∀ d, d ∈ depsOf deps t → d ∈ seen ++ l1.
Proof.
  induction l as [|x l IH]; intros seen H l1 t l2 Heq d Hd.
  - by destruct l1.
  - simpl in H. apply andb_prop in H as [Hx Hl].
    destruct l1 as [|y l1]; simplify_eq/=.
    + rewrite app_nil_r. rewrite forallb_forall in Hx.
      apply list_elem_of_In, Hx in Hd. by apply bool_decide_eq_true in Hd.
    + specialize (IH _ Hl l1 t l2 eq_refl d Hd).
      by rewrite <- app_assoc in IH.
Qed.

Lemma orderedb_ordered l : orderedb deps l = true → ordered deps l.
Proof.
  intros H l1 t l2 Heq d Hd.
  by apply (orderedb_from_spec l [] H l1 t l2 Heq d Hd).
Qed.

(** *** Acyclic graphs *)

(** A rank that strictly decreases along every edge excludes cycles. *)
Lemma ranked_acyclic (rank : string → nat) :
  map_Forall (λ t ds, Forall (λ d, rank d < rank t) ds) deps →
  acyclic deps.
Proof.
  intros Hrk.
  assert (Hedge : ∀ t d, edge deps t d → rank d < rank t).
  { unfold edge, depsOf. intros t d Hd.
    destruct (deps !! t) as [ds|] eqn:Hlk; simpl in Hd; [|by apply elem_of_nil in Hd].
    specialize (Hrk t ds Hlk). simpl in Hrk.
    rewrite Forall_forall in Hrk. by apply Hrk. }
  assert (Htc : ∀ t d, tc (edge deps) t d → rank d < rank t).
  { intros t d H. induction H as [x y H|x y z H _ IH].
    - by apply Hedge.
    - apply Hedge in H. lia. }
  intros t Ht. apply Htc in Ht. lia.
Qed.

Lemma loop_spec body S ds :
  (∀ d, d ∈ ds → visit_spec deps body S d) →
  ∀ st st', inv deps S st → (∀ s d, s ∈ S → d ∈ ds → tc (edge deps) s d) →
    range_loop body ds st = Some st' →
    inv deps S st' ∧ (∀ d, d ∈ ds → d ∈ st'.2)
    ∧ extends st st' (λ x, ∃ d, d ∈ ds ∧ rtc (edge deps) d x).
Proof.
  induction ds as [|d ds IH]; intros Hbody st st' Hinv Hstk Hrun; simpl in Hrun.
  - simplify_eq. split_and!; [done | by intros d ?%elem_of_nil |].
    exists []. split; [by rewrite app_nil_r | by intros x ?%elem_of_nil].
  - destruct (body d st) as [st1|] eqn:Hd; [|done].
    destruct (Hbody d (list_elem_of_here _ _) st st1 Hinv) as (Hinv1 & Hin1 & ext1 & Hext1 & Hreach1);
      [intros s Hs; apply Hstk; [done | apply list_elem_of_here] | done |].
    destruct (IH (λ x Hx, Hbody x (list_elem_of_further _ _ _ Hx)) st1 st' Hinv1)
      as (Hinv' & Hin' & ext2 & Hext2 & Hreach2);
      [intros s x Hs Hx; apply Hstk; [done | by apply list_elem_of_further] | done |].
    split_and!; [done | |].
    + intros x [->|Hx]%elem_of_cons; [|by apply Hin'].
      rewrite Hext2. apply elem_of_app. by left.
    + exists (ext1 ++ ext2). split; [by rewrite Hext2, Hext1, app_assoc|].
      intros x [Hx|Hx]%elem_of_app.
      * exists d. split; [apply list_elem_of_here | by apply Hreach1].
      * destruct (Hreach2 x Hx) as (d' & Hd' & Hr). exists d'.
        split; [by apply list_elem_of_further | done].
Qed.

(** *** Re-resolving an ordered list *)

Lemma loop_visited fuel ds (st : rstate) :
  (∀ d, d ∈ ds → d ∈ st.1) →
  range_loop (visit deps fuel) ds st = Some st.
Proof.
  destruct st as [visited order]. simpl.
  induction ds as [|d ds IH]; intros Hds; cbn [range_loop]; [done|].
  assert (Hd : visit deps fuel d (visited, order) = Some (visited, order)).
  { destruct fuel; simpl; rewrite decide_True; auto using list_elem_of_here. }
  rewrite Hd. apply IH. intros x Hx. by apply Hds, list_elem_of_further.
Qed.

Lemma visit_fresh fuel t visited order :
  t ∉ visited →
  visit deps (S fuel) t (visited, order) =
  match range_loop (visit deps fuel) (depsOf deps t) ({[t]} ∪ visited, order) with
  | Some (visited', order') => Some (visited', order' ++ [t])
  | None => None
  end.
Proof. intros H. simpl. by rewrite decide_False. Qed.

Lemma loop_fixed fuel l : ∀ order,
  NoDup (order ++ l) → ordered deps (order ++ l) →
  range_loop (visit deps (S fuel)) l (list_to_set order, order)
  = Some (list_to_set (order ++ l), order ++ l).
Proof.
  induction l as [|x l IH]; intros order Hnd Hord; cbn [range_loop].
  - by rewrite app_nil_r.
  - assert (Hx : x ∉ order).
    { apply NoDup_app in Hnd as (_ & Hnd & _). intros Hx.
      eapply Hnd; [done | apply list_elem_of_here]. }
    rewrite visit_fresh by by rewrite elem_of_list_to_set.
    rewrite loop_visited; cbv beta iota.
    + replace ({[x]} ∪ list_to_set order : gset string)
        with (list_to_set (C := gset string) (order ++ [x]))
        by (rewrite list_to_set_app_L; simpl; set_solver).
      rewrite (IH (order ++ [x])); rewrite <- ?app_assoc; done.
    + intros d Hd. apply elem_of_union. right. apply elem_of_list_to_set.
      by eapply (Hord order x l).
Qed.

Lemma resolve_fixed fuel l :
  NoDup l → ordered deps l → resolve deps (S fuel) l = Some l.
Proof.
  intros Hnd Hord. unfold resolve.
  pose proof (loop_fixed fuel l [] Hnd Hord) as Hrun.
  change (list_to_set []) with (∅ : gset string) in Hrun.
  by rewrite Hrun.
Qed.

Hypothesis Hacyclic : acyclic deps.

Lemma inv_visited S st x : inv deps S st → x ∈ st.1 ↔ x ∈ st.2 ∨ x ∈ S.
Proof. intros (-> & _). rewrite elem_of_union, elem_of_list_to_set. done. Qed.

Lemma visit_ok fuel : ∀ S t, visit_spec deps (visit deps fuel) S t.
Proof.
  induction fuel as [|fuel IH]; intros S t [visited order] st' Hinv Hstk Hrun;
    pose proof (λ x, inv_visited S _ x Hinv) as Hvis;
    simpl in Hrun, Hvis;
    destruct (decide (t ∈ visited)) as [Hin|Hnin]; try discriminate Hrun.
  1,2: injection Hrun as <-;
      assert (t ∈ order) by
        (apply Hvis in Hin as [Hin|Hin]; [done | by apply Hstk, Hacyclic in Hin]);
      split_and!; [done.. |];
      exists []; split; [by rewrite app_nil_r | by intros x ?%elem_of_nil].
  destruct (range_loop _ _ _) as [[visited1 order1]|] eqn:Hloop; [|done].
  injection Hrun as <-.
  destruct Hinv as (Heq & Hnd & Hdisj & Hord). simpl in Heq, Hnd, Hdisj, Hord.
  assert (HtS : t ∉ S) by (intros HS; apply Hnin, Hvis; by right).
  assert (Htord : t ∉ order) by (intros HS; apply Hnin, Hvis; by left).
  destruct (loop_spec (visit deps fuel) ({[t]} ∪ S) (depsOf deps t)
              (λ d _, IH _ d) ({[t]} ∪ visited, order) (visited1, order1))
    as ((Hvis1 & Hnd1 & Hdisj1 & Hord1) & Hdeps & ext & Hext & Hreach);
    [| |exact Hloop|].
  - split_and!; simpl; [rewrite Heq; set_solver | done | | done].
    intros x [->%elem_of_singleton|Hx]%elem_of_union; [done | by apply Hdisj].
  - intros s d [->%elem_of_singleton|Hs]%elem_of_union Hd.
    + by apply tc_once.
    + eapply tc_r; [by apply Hstk | done].
  - simpl in *. assert (Ht1 : t ∉ order1) by (apply Hdisj1; set_solver).
    unfold inv, extends; simpl. split_and!.
    + rewrite Hvis1, list_to_set_app_L. simpl. set_solver.
    + apply NoDup_app. split_and!; [done | | apply NoDup_singleton].
      intros x Hx ->%list_elem_of_singleton. done.
    + intros x Hx [Hx1| ->%list_elem_of_singleton]%elem_of_app; [|done].
      eapply Hdisj1; [|done]. set_solver.
    + by apply ordered_snoc.
    + apply elem_of_app. right. apply list_elem_of_here.
    + exists (ext ++ [t]). split; [by rewrite Hext, app_assoc|].
      intros x [Hx| ->%list_elem_of_singleton]%elem_of_app; [|done].
      destruct (Hreach x Hx) as (d & Hd & Hr). by eapply rtc_l.
Qed.

Lemma resolve_ok fuel requested out :
  resolve deps fuel requested = Some out →
  NoDup out ∧ ordered deps out ∧ ∀ t, t ∈ out ↔ needed deps requested t.
Proof.
  unfold resolve. intros Hrun.
  destruct (range_loop _ _ _) as [[visited order]|] eqn:Hloop; [|done].
  injection Hrun as Hout. simpl in Hout. subst order.
  destruct (loop_spec (visit deps fuel) ∅ requested (λ d _, visit_ok fuel ∅ d)
              (∅, []) (visited, out))
    as ((_ & Hnd & _ & Hord) & Hreq & ext & Hext & Hreach); [| |done|].
  - split_and!; simpl; [set_solver | constructor | set_solver | apply ordered_nil].
  - set_solver.
  - simpl in *. subst ext. split_and!; [done..|].
    intros t. split; [by apply Hreach|].
    intros (r & Hr & Hrt). eapply ordered_closed_rtc; [done | by apply Hreq | done].
Qed.

End WithGraph.
End ResolverFacts.

Lemma depMap_acyclic : Resolver.acyclic depMap.
Proof.
  apply (ResolverFacts.ranked_acyclic depMap depRank).
  compute_done.
Qed.

(** The two default selections of the program. *)
Example allTools_run :
  allTools = [toolITerm2; toolXcode; toolHomebrew; toolPyenv; toolPython313;
              toolPython396; toolPyenvVenvNCP; toolAllProxy; toolSpartaPKI; toolHopsCLI].
Proof. by vm_compute. Qed.

Example gnocTools_run :
  gnocTools = [toolXcode; toolHomebrew; toolPyenv; toolPython396; toolPyenvVenvNCP;
               toolPython313; toolAllProxy; toolGNOCHelper; toolStencil; toolSilencer;
               toolNCPCLI; toolJITPass].
Proof. by vm_compute. Qed.

Example allTools_ordered : Resolver.orderedb depMap allTools = true.
Proof. by vm_compute. Qed.

(** A chain D → C → B → A resolves to A, B, C, D. *)
Example resolve_chain :
  Resolver.resolveTools
    (list_to_map [("D", ["C"]); ("C", ["B"]); ("B", ["A"]); ("A", [])]) ["D"]
  = ["A"; "B"; "C"; "D"].
Proof. by vm_compute. Qed.

(** The traversal marks a tool before it descends, so it also ends on
    a table with a cycle; the result is then not ordered. *)
Example resolve_cycle :
  Resolver.resolve (list_to_map [("a", ["b"]); ("b", ["a"])]) 3 ["a"] = Some ["b"; "a"].
Proof. by vm_compute. Qed.

Lemma resolveTools_spec (deps : gmap string (list string))
    (requested : list toolID) :
  Resolver.acyclic deps →
  let out := Resolver.resolveTools deps requested in
  Resolver.resolve deps (S (size deps)) requested = Some out
  ∧ NoDup out
  ∧ Resolver.ordered deps out
  ∧ (∀ t, t ∈ out ↔ Resolver.needed deps requested t).
Proof.
  intros Hacyc out.
  destruct (ResolverFacts.resolve_total deps requested) as [out' Hrun].
  assert (out = out') as <- by by apply ResolverFacts.resolveTools_eq.
  split; [done|]. by eapply ResolverFacts.resolve_ok.
Qed.

(** C1. Over an acyclic dependency table, for every requested sequence
    (duplicates and missing prerequisites allowed) [resolveTools]
    returns a list that contains every requested tool and every
    transitive prerequisite of one, contains nothing else, has no tool
    twice, and lists every tool strictly after all of its
    prerequisites.  The first conjunct says that the traversal
    completes within its bound. *)
Theorem resolveTools_topological (deps : gmap string (list string))
    (requested : list toolID) :
  Resolver.acyclic deps →
  let out := Resolver.resolveTools deps requested in
  Resolver.resolve deps (S (size deps)) requested = Some out
  ∧ (∀ t, Resolver.needed deps requested t → t ∈ out)
  ∧ NoDup out
  ∧ Resolver.ordered deps out
  ∧ (∀ t, t ∈ out → Resolver.needed deps requested t).
Proof.
  intros Hacyc out.
  destruct (resolveTools_spec deps requested Hacyc) as (Hrun & Hnd & Hord & Hiff).
  split_and!; [done | by intros t ?%Hiff | done | done | by intros t ?%Hiff].
Qed.

Lemma resolveTools_topological_witness :
  Resolver.acyclic depMap
  ∧ let out := Resolver.resolveTools depMap [toolHopsCLI; toolStencil; toolHopsCLI] in
    Resolver.resolve depMap (S (size depMap)) [toolHopsCLI; toolStencil; toolHopsCLI]
      = Some out
    ∧ (∀ t, Resolver.needed depMap [toolHopsCLI; toolStencil; toolHopsCLI] t → t ∈ out)
    ∧ NoDup out
    ∧ Resolver.ordered depMap out
    ∧ (∀ t, t ∈ out → Resolver.needed depMap [toolHopsCLI; toolStencil; toolHopsCLI] t).
Proof.
  split; [exact depMap_acyclic|].
  exact (resolveTools_topological depMap [toolHopsCLI; toolStencil; toolHopsCLI]
           depMap_acyclic).
Defined.

(** C9. Over an acyclic dependency table [resolveTools] is idempotent:
    resolving its own output returns that output unchanged. *)
Theorem resolveTools_idempotent (deps : gmap string (list string))
    (requested : list toolID) :
  Resolver.acyclic deps →
  Resolver.resolve deps (S (size deps)) (Resolver.resolveTools deps requested)
    = Some (Resolver.resolveTools deps requested)
  ∧ Resolver.resolveTools deps (Resolver.resolveTools deps requested)
    = Resolver.resolveTools deps requested.
Proof.
  intros Hacyc.
  destruct (resolveTools_spec deps requested Hacyc) as (_ & Hnd & Hord & _).
  pose proof (ResolverFacts.resolve_fixed deps (size deps) _ Hnd Hord) as Hfix.
  split; [done | by apply ResolverFacts.resolveTools_eq].
Qed.

Lemma resolveTools_idempotent_witness :
  Resolver.acyclic depMap
  ∧ Resolver.resolve depMap (S (size depMap))
      (Resolver.resolveTools depMap [toolGNOCHelper; toolITerm2])
    = Some (Resolver.resolveTools depMap [toolGNOCHelper; toolITerm2])
  ∧ Resolver.resolveTools depMap (Resolver.resolveTools depMap [toolGNOCHelper; toolITerm2])
    = Resolver.resolveTools depMap [toolGNOCHelper; toolITerm2].
Proof.
  split; [exact depMap_acyclic|].
  exact (resolveTools_idempotent depMap [toolGNOCHelper; toolITerm2] depMap_acyclic).
Defined.

(** ** The phase split *)

Lemma splitPhases_from (tools : list toolID) : ∀ p1 p3,
  fold_left
    (λ '(p1, p3) t, if inPhase1 t then (p1 ++ [t], p3) else (p1, p3 ++ [t]))
    tools (p1, p3)
  = (p1 ++ filter (λ t, inPhase1 t = true) tools,
     p3 ++ filter (λ t, ¬ inPhase1 t = true) tools).
Proof.
  induction tools as [|t tools IH]; intros p1 p3; simpl.
  - by rewrite !app_nil_r.
  - destruct (inPhase1 t) eqn:Ht; rewrite IH.
    + rewrite filter_cons_True, filter_cons_False by (by rewrite ?Ht; auto).
      by rewrite <- app_assoc.
    + rewrite filter_cons_False, filter_cons_True by (by rewrite ?Ht; auto).
      by rewrite <- app_assoc.
Qed.

Lemma splitPhases_filter (tools : list toolID) :
  splitPhases tools
  = (filter (λ t, inPhase1 t = true) tools, filter (λ t, ¬ inPhase1 t = true) tools).
Proof. unfold splitPhases. by rewrite splitPhases_from. Qed.

(** C4. The phase split partitions the plan: the public-phase list is
    the sub-list of the tools marked in [phase1Tools], the
    private-phase list the sub-list of all the others; both keep the
    order of the plan, together they hold exactly the tools of the plan
    (with their multiplicities), every tool of the plan is in exactly
    one of them, and a tool that is not marked public is in the
    private-phase list. *)
Theorem splitPhases_partition (plan : list toolID) :
  let p1 := (splitPhases plan).1 in
  let p3 := (splitPhases plan).2 in
  p1 = filter (λ t, inPhase1 t = true) plan
  ∧ p3 = filter (λ t, ¬ inPhase1 t = true) plan
  ∧ p1 `sublist_of` plan
  ∧ p3 `sublist_of` plan
  ∧ (p1 ++ p3) ≡ₚ plan
  ∧ (∀ t, t ∈ plan → (t ∈ p1 ∧ ¬ (t ∈ p3)) ∨ (¬ (t ∈ p1) ∧ t ∈ p3))
  ∧ (∀ t, t ∈ plan → phase1Tools !! t ≠ Some true → t ∈ p3).
Proof.
  intros p1 p3. subst p1 p3. rewrite splitPhases_filter. simpl.
  split_and!; [done | done | apply sublist_filter | apply sublist_filter
              | apply filter_app_complement | |].
  - intros t Ht. rewrite !list_elem_of_filter.
    destruct (inPhase1 t) eqn:Hp; [left | right]; naive_solver.
  - intros t Ht Hpub. apply list_elem_of_filter. split; [|done].
    unfold inPhase1. destruct (phase1Tools !! t) as [[]|]; naive_solver.
Qed.

(** Inserting a tool behind all of its prerequisites keeps a list ordered. *)
Lemma ordered_insert (deps : gmap string (list string)) a b x :
  Resolver.ordered deps (a ++ b) →
  (∀ d, d ∈ Resolver.depsOf deps x → d ∈ a) →
  Resolver.ordered deps (a ++ x :: b).
Proof.
  intros Hab Hx l1 t l2 Heq d Hd.
  apply app_eq_inv in Heq as [(k & Ha & Hk)|(k & Hl1 & Hk)].
  - destruct k as [|y k]; simpl in Hk.
    + injection Hk as -> ->. rewrite app_nil_r in Ha. subst l1. by apply Hx.
    + injection Hk as <- ->. subst a.
      apply (Hab l1 t (k ++ b)); [by rewrite <- app_assoc | done].
  - destruct k as [|y k]; simpl in Hk.
    + injection Hk as -> ->. rewrite app_nil_r in Hl1. subst l1. by apply Hx.
    + injection Hk as <- ->. subst l1.
      assert (d ∈ a ++ k) as [Hin|Hin]%elem_of_app.
      { apply (Hab (a ++ k) t l2); [by rewrite <- app_assoc | done]. }
      * apply elem_of_app. by left.
      * apply elem_of_app. right. by apply list_elem_of_further.
Qed.

(** Splitting an ordered list by a predicate that is closed under
    prerequisites, and running the marked part first, keeps it ordered. *)
Lemma ordered_split (deps : gmap string (list string)) (P : string → Prop)
    `{!∀ t, Decision (P t)} (plan : list toolID) :
  (∀ t d, P t → d ∈ Resolver.depsOf deps t → P d) →
  Resolver.ordered deps plan →
  Resolver.ordered deps (filter P plan ++ filter (λ t, ¬ P t) plan).
Proof.
  intros Hclosed. induction plan as [|x plan IH] using rev_ind; intros Hord.
  - apply ResolverFacts.ordered_nil.
  - assert (Hx : ∀ d, d ∈ Resolver.depsOf deps x → d ∈ plan)
      by (intros d Hd; by apply (Hord plan x [])).
    apply ResolverFacts.ordered_prefix in Hord. specialize (IH Hord).
    rewrite !filter_app. destruct (decide (P x)) as [HP|HP].
    + rewrite (filter_cons_True P), (filter_cons_False (λ t, ¬ P t)) by auto.
      rewrite !filter_nil, app_nil_r, <- app_assoc. simpl.
      apply ordered_insert; [done|].
      intros d Hd. apply list_elem_of_filter. split; [by eapply Hclosed | by apply Hx].
    + rewrite (filter_cons_False P), (filter_cons_True (λ t, ¬ P t)) by auto.
      rewrite !filter_nil, app_nil_r, app_assoc.
      apply ResolverFacts.ordered_snoc; [done|].
      intros d Hd. apply Hx in Hd.
      destruct (decide (P d)); apply elem_of_app; [left | right];
        by apply list_elem_of_filter.
Qed.

(** The public set of the catalog is closed under prerequisites. *)
Lemma phase1_closed (t d : toolID) :
  inPhase1 t = true → d ∈ Resolver.depsOf depMap t → inPhase1 d = true.
Proof.
  assert (H : map_Forall
    (λ t ds, inPhase1 t = true → Forall (λ d, inPhase1 d = true) ds) depMap)
    by compute_done.
  unfold Resolver.depsOf. intros Ht Hd.
  destruct (depMap !! t) as [ds|] eqn:Hlk; simpl in Hd; [|by apply elem_of_nil in Hd].
  specialize (H t ds Hlk Ht). rewrite Forall_forall in H. by apply H.
Qed.

(** C10. In the catalog every prerequisite of a public-phase tool is a
    public-phase tool.  So for every resolved plan the public-phase
    list followed by the private-phase list still has every tool after
    all of its prerequisites, and no prerequisite of a public-phase
    tool is put into the private phase. *)
Theorem phase_split_respects_prerequisites (requested : list toolID) :
  (∀ t d, inPhase1 t = true → d ∈ Resolver.depsOf depMap t → inPhase1 d = true)
  ∧ let plan := resolveTools requested in
    let p1 := (splitPhases plan).1 in
    let p3 := (splitPhases plan).2 in
    Resolver.ordered depMap plan
    ∧ Resolver.ordered depMap (p1 ++ p3)
    ∧ (∀ t d, t ∈ p1 → d ∈ Resolver.depsOf depMap t → d ∈ p1 ∧ d ∉ p3).
Proof.
  split; [exact phase1_closed|]. intros plan p1 p3.
  destruct (resolveTools_spec depMap requested depMap_acyclic) as (_ & _ & Hord & _).
  fold (resolveTools requested) in Hord. fold plan in Hord.
  subst p1 p3. rewrite splitPhases_filter. simpl.
  split_and!; [done | by apply ordered_split; [exact phase1_closed|] |].
  intros t d [Ht Hin]%list_elem_of_filter Hd. rewrite !list_elem_of_filter.
  pose proof (phase1_closed t d Ht Hd).
  split; [split; [done|] | naive_solver].
  by eapply ResolverFacts.ordered_closed.
Qed.

(** ** Strings *)

Example SplitComma_run : SplitComma "xcode,,pyenv" = ["xcode"; ""; "pyenv"].
Proof. reflexivity. Qed.

Example SplitComma_empty : SplitComma "" = [""].
Proof. reflexivity. Qed.

Example Contains_empty : Contains "abc" "" = true.
Proof. reflexivity. Qed.

Lemma HasPrefix_app s t pre : HasPrefix s pre = true → HasPrefix (s +:+ t) pre = true.
Proof.
  revert pre. induction s as [|c s IH]; intros [|a pre]; simpl; try done.
  destruct (Ascii.eqb a c); [apply IH | done].
Qed.

Lemma Contains_app_l s t substr :
  Contains s substr = true → Contains (s +:+ t) substr = true.
Proof.
  induction s as [|c s IH]; simpl.
  - rewrite orb_false_r. destruct substr; [by destruct t | done].
  - intros [H|H]%orb_true_iff; apply orb_true_iff.
    + left. by apply (HasPrefix_app (String c s)).
    + right. by apply IH.
Qed.

Lemma Contains_app_r s t substr :
  Contains t substr = true → Contains (s +:+ t) substr = true.
Proof.
  intros H. induction s as [|c s IH]; simpl; [done|].
  rewrite IH. apply orb_true_r.
Qed.

Lemma HasPrefix_app_newline s t substr :
  noNewline substr = true →
  HasPrefix (s +:+ String newline t) substr = HasPrefix s substr.
Proof.
  revert substr. induction s as [|c s IH]; intros [|a substr]; simpl; try done.
  - intros [Ha _]%andb_true_iff. by destruct (Ascii.eqb a newline).
  - intros [_ Hs]%andb_true_iff. destruct (Ascii.eqb a c); [by apply IH | done].
Qed.

Lemma Occurrences_app_newline s t substr :
  substr ≠ "" → noNewline substr = true →
  Occurrences (s +:+ String newline t) substr = Occurrences s substr + Occurrences t substr.
Proof.
  intros Hne Hnl. induction s as [|c s IH].
  - destruct substr as [|a substr]; [done|]. simpl in *.
    apply andb_true_iff in Hnl as [Ha _]. by destruct (Ascii.eqb a newline).
  - change (String c s +:+ String newline t) with (String c (s +:+ String newline t)).
    cbn [Occurrences]. rewrite IH.
    change (String c (s +:+ String newline t)) with (String c s +:+ String newline t).
    rewrite HasPrefix_app_newline by done. lia.
Qed.

Lemma Occurrences_empty substr : substr ≠ "" → Occurrences "" substr = 0.
Proof. by destruct substr. Qed.

Lemma Contains_false_Occurrences s substr :
  Contains s substr = false → Occurrences s substr = 0.
Proof.
  induction s as [|c s IH]; simpl; intros [H1 H2]%orb_false_iff; rewrite H1.
  - done.
  - by rewrite IH.
Qed.

Lemma Occurrences_pos_Contains s substr :
  0 < Occurrences s substr → Contains s substr = true.
Proof.
  intros H. destruct (Contains s substr) eqn:Hc; [done|].
  apply Contains_false_Occurrences in Hc. lia.
Qed.

(** ** Guarded appends to ~/.zshrc *)

Section AppendFacts.

Context {Machine : Type}.
Variable dryRun : bool.
Implicit Types h : @host Machine.

Lemma appendToZshrc_zshrc guardString block h :
  zshrc (appendToZshrc dryRun guardString block h).2
    = zshrcAfterAppend dryRun guardString block (zshrc h) (zshrcWritable h)
  ∧ zshrcWritable (appendToZshrc dryRun guardString block h).2 = zshrcWritable h.
Proof.
  unfold appendToZshrc, zshrcAfterAppend, logInfo, logInfoF, logWrite, print, setZshrc.
  destruct (fileContains _ _), dryRun, (zshrcWritable h) eqn:Hw;
    simpl; destruct (logOpen h); simpl; by rewrite ?Hw.
Qed.

Lemma appendToZshrc_times_zshrc n guardString block : ∀ h,
  zshrc (appendToZshrc_times dryRun n guardString block h)
  = Nat.iter n (λ f, zshrcAfterAppend dryRun guardString block f (zshrcWritable h))
             (zshrc h).
Proof.
  induction n as [|n IH]; intros h; [done|].
  cbn [appendToZshrc_times]. rewrite IH.
  destruct (appendToZshrc_zshrc guardString block h) as [-> ->].
  by rewrite Nat.iter_succ_r.
Qed.

Lemma fileContains_appendFile f guardString block :
  (∀ data, f ≠ Present data false) →
  Contains block guardString = true →
  fileContains (appendFile f (nl +:+ block +:+ nl)) guardString = true.
Proof.
  intros Hr Hc. assert (Contains (nl +:+ block +:+ nl) guardString = true)
    by by apply Contains_app_r, Contains_app_l.
  destruct f as [|data []]; simpl;
    [done | by apply Contains_app_r | by destruct (Hr data eq_refl)].
Qed.

(** After one call, a further call finds nothing to do. *)
Lemma zshrcAfterAppend_idem guardString block f writable :
  (∀ data, f ≠ Present data false) →
  Contains block guardString = true →
  let f1 := zshrcAfterAppend dryRun guardString block f writable in
  zshrcAfterAppend dryRun guardString block f1 writable = f1.
Proof.
  intros Hr Hc. unfold zshrcAfterAppend.
  destruct (fileContains f guardString) eqn:Hf; simpl; [by rewrite Hf|].
  destruct dryRun; simpl; [by rewrite Hf|].
  destruct writable; simpl; [|by rewrite Hf].
  by rewrite fileContains_appendFile.
Qed.

Lemma zshrcAfterAppend_iter n guardString block f writable :
  zshrcAfterAppend dryRun guardString block f writable = f →
  Nat.iter n (λ f, zshrcAfterAppend dryRun guardString block f writable) f = f.
Proof. intros H. induction n as [|n IH]; simpl; [done|]. by rewrite IH. Qed.

Lemma Occurrences_appendFile f guardString block :
  fileContains f guardString = false →
  (∀ data, f ≠ Present data false) →
  guardString ≠ "" → noNewline guardString = true →
  Occurrences (content_of (appendFile f (nl +:+ block +:+ nl))) guardString
  = Occurrences block guardString.
Proof.
  intros Hf Hr Hne Hnl.
  assert (Htext : ∀ data, Contains data guardString = false →
    Occurrences (data +:+ nl +:+ block +:+ nl) guardString = Occurrences block guardString).
  { intros data Hd. unfold nl.
    change (data +:+ String newline "" +:+ block +:+ String newline "")
      with (data +:+ String newline (block +:+ String newline "")).
    rewrite !Occurrences_app_newline, Occurrences_empty by done.
    rewrite Contains_false_Occurrences by done. lia. }
  destruct f as [|data []]; simpl.
  - apply (Htext ""). by destruct guardString.
  - by apply Htext.
  - by destruct (Hr data eq_refl).
Qed.

End AppendFacts.

(** C5 (as amended). A guarded append is idempotent on a file that is
    absent or readable: once [appendToZshrc] has been called with a
    block that contains its guard, any number of further calls with the
    same arguments leave the file as the first call left it.  The file
    then holds the guard exactly once when the first call really
    appended (not simulate-only, file writable, guard not yet in the
    file) and the guard is non-empty, has no line break and occurs
    exactly once in the block. *)
Theorem appendToZshrc_idempotent {Machine : Type} (dryRun : bool)
    (guardString block : string) (h : @host Machine) :
  (∀ data, zshrc h ≠ Present data false) →
  Contains block guardString = true →
  let h1 := (appendToZshrc dryRun guardString block h).2 in
  (∀ n, zshrc (appendToZshrc_times dryRun n guardString block h1) = zshrc h1)
  ∧ (dryRun = false → zshrcWritable h = true →
     fileContains (zshrc h) guardString = false →
     guardString ≠ "" → noNewline guardString = true →
     Occurrences block guardString = 1 →
     ∀ n, Occurrences
            (content_of (zshrc (appendToZshrc_times dryRun (S n) guardString block h)))
            guardString = 1).
Proof.
  intros Hr Hc h1.
  destruct (appendToZshrc_zshrc dryRun guardString block h) as [Hz Hw].
  fold h1 in Hz, Hw.
  assert (Hstable : ∀ n,
    zshrc (appendToZshrc_times dryRun n guardString block h1) = zshrc h1).
  { intros n. rewrite appendToZshrc_times_zshrc, Hw, Hz.
    by apply zshrcAfterAppend_iter, zshrcAfterAppend_idem. }
  split; [done|].
  intros -> Hwr Hf Hne Hnl Hocc n. cbn [appendToZshrc_times]. fold h1.
  rewrite Hstable, Hz, Hwr. unfold zshrcAfterAppend. rewrite Hf.
  by rewrite Occurrences_appendFile.
Qed.

Lemma appendToZshrc_idempotent_witness :
  (∀ n, zshrc (appendToZshrc_times false n "# BEGIN: pyenv" pyenvBlock
                 (appendToZshrc false "# BEGIN: pyenv" pyenvBlock freshHost).2)
        = zshrc (appendToZshrc false "# BEGIN: pyenv" pyenvBlock freshHost).2)
  ∧ (∀ n, Occurrences
            (content_of (zshrc (appendToZshrc_times false (S n) "# BEGIN: pyenv"
                                  pyenvBlock freshHost)))
            "# BEGIN: pyenv" = 1).
Proof.
  destruct (appendToZshrc_idempotent false "# BEGIN: pyenv" pyenvBlock freshHost)
    as [Hidem Honce]; [done | reflexivity |].
  split; [exact Hidem|].
  apply Honce; [reflexivity | reflexivity | reflexivity | done | reflexivity | reflexivity].
Defined.

(** C5, counterexample to the claim as stated: with guard [g] and the
    block [gg], which contains the guard, two calls on a host without
    ~/.zshrc leave a file that holds the guard twice. *)
Lemma appendToZshrc_marker_twice :
  Contains "gg" "g" = true
  ∧ zshrc (appendToZshrc_times false 2 "g" "gg" freshHost)
    = Present (nl +:+ "gg" +:+ nl) true
  ∧ Occurrences (content_of (zshrc (appendToZshrc_times false 2 "g" "gg" freshHost))) "g"
    = 2.
Proof. split_and!; reflexivity. Qed.

(** ** Frames: what logging and printing leave alone *)

Section FrameFacts.

Context {Machine : Type}.
Implicit Types (h : @host Machine) (w : @world Machine).

Lemma onlyLogged_refl h : onlyLogged h h.
Proof. by repeat split. Qed.

Lemma onlyLogged_trans h1 h2 h3 :
  onlyLogged h1 h2 → onlyLogged h2 h3 → onlyLogged h1 h3.
Proof.
  intros (?&?&?&?&?&?&?&?&?) (?&?&?&?&?&?&?&?&?).
  repeat split; try congruence; by etrans.
Qed.

Lemma onlyLogged_print o h : onlyLogged h (print o h).
Proof. repeat split; simpl; try done. by apply prefix_app_r. Qed.

Lemma onlyLogged_logSetPhase phase h : onlyLogged h (logSetPhase phase h).
Proof. by repeat split. Qed.

Lemma onlyLogged_logWrite level step msg fields h :
  onlyLogged h (logWrite level step msg fields h).
Proof.
  unfold logWrite. destruct (logOpen h) eqn:Ho; [|apply onlyLogged_refl].
  repeat split; simpl; try done. by apply prefix_app_r.
Qed.

Lemma onlyLogged_logInfoF step msg fields h : onlyLogged h (logInfoF step msg fields h).
Proof.
  unfold logInfoF. eapply onlyLogged_trans;
    [apply onlyLogged_logWrite | apply onlyLogged_print].
Qed.

Lemma onlyLogged_logInfo step msg h : onlyLogged h (logInfo step msg h).
Proof. apply onlyLogged_logInfoF. Qed.

Lemma onlyLogged_logWarn step msg h : onlyLogged h (logWarn step msg h).
Proof.
  unfold logWarn. eapply onlyLogged_trans;
    [apply onlyLogged_logWrite | apply onlyLogged_print].
Qed.

Lemma onlyLogged_logError step msg h : onlyLogged h (logError step msg h).
Proof.
  unfold logError, logErrorF. eapply onlyLogged_trans;
    [apply onlyLogged_logWrite | apply onlyLogged_print].
Qed.

Lemma onlyLoggedW_refl w : onlyLoggedW w w.
Proof. split; [apply onlyLogged_refl | done]. Qed.

Lemma onlyLoggedW_trans w1 w2 w3 :
  onlyLoggedW w1 w2 → onlyLoggedW w2 w3 → onlyLoggedW w1 w3.
Proof.
  intros (?&?&?&?&?) (?&?&?&?&?).
  split; [by eapply onlyLogged_trans | repeat split; congruence].
Qed.

Lemma onlyLoggedW_onHost (f : @host Machine → @host Machine) w :
  onlyLogged (hst w) (f (hst w)) → onlyLoggedW w (onHost f w).
Proof. intros H. by split. Qed.

Lemma onlyLoggedW_setHost h w : onlyLogged (hst w) h → onlyLoggedW w (setHost h w).
Proof. intros H. by split. Qed.

End FrameFacts.

(** Peels logging and printing off the right-hand host of an
    [onlyLogged] goal, outermost first. *)
Ltac frame :=
  cbv beta;
  repeat first
    [ apply onlyLogged_refl
    | eapply onlyLogged_trans;
      [| first [ apply onlyLogged_print | apply onlyLogged_logInfo
               | apply onlyLogged_logWarn | apply onlyLogged_logError
               | apply onlyLogged_logSetPhase | apply onlyLogged_logInfoF
               | apply onlyLogged_logWrite ] ] ].

(** The same for processes, through [onHost]. *)
Ltac frameW :=
  repeat first
    [ eassumption
    | apply onlyLoggedW_refl
    | eapply onlyLoggedW_trans;
      [| first [ apply onlyLoggedW_onHost; frame
               | apply onlyLoggedW_setHost; frame; eassumption ] ] ].

(** ** The phase engine *)

Section EngineFacts.

Context {Machine : Type}.
Variable dryRun : bool.
Variable install : toolID → string → @host Machine → option string * @host Machine.
Implicit Types (h : @host Machine) (w : @world Machine).

(** [runTool] reads neither Run State nor the invocation trace. *)
Lemma runTool_state t guid w sd sf sw :
  runTool dryRun install t guid (mkWorld (hst w) sd sf sw (invoked w))
  = let '(r, w') := runTool dryRun install t guid w in
    (r, mkWorld (hst w') sd sf sw (invoked w')).
Proof.
  unfold runTool. destruct dryRun; [done|]. simpl.
  destruct (bool_decide _); simpl.
  - by destruct (install _ _ _) as [[e|] h'].
  - done.
Qed.

Lemma runTool_keeps_state t guid w :
  stateData (runTool dryRun install t guid w).2 = stateData w
  ∧ stateFile (runTool dryRun install t guid w).2 = stateFile w
  ∧ stateWritable (runTool dryRun install t guid w).2 = stateWritable w.
Proof.
  unfold runTool. destruct dryRun; [done|]. simpl.
  destruct (bool_decide _); simpl.
  - by destruct (install _ _ _) as [[e|] h'].
  - done.
Qed.

(** The installers [runTool] invokes. *)
Lemma runTool_invoked t guid w :
  invoked (runTool dryRun install t guid w).2
  = invoked w ++ (if dryRun then [] else if bool_decide (t ∈ registered) then [t] else []).
Proof.
  unfold runTool. destruct dryRun; simpl; [by rewrite app_nil_r|].
  destruct (bool_decide _); simpl.
  - by destruct (install _ _ _) as [[e|] h'].
  - by rewrite app_nil_r.
Qed.

(** A tool without a case in the [switch] fails. *)
Lemma runTool_success_registered t guid w :
  dryRun = false → (runTool dryRun install t guid w).1 = None → t ∈ registered.
Proof.
  intros ->. unfold runTool.
  destruct (bool_decide (t ∈ registered)) eqn:Hreg; [by apply bool_decide_eq_true in Hreg|].
  done.
Qed.

Lemma runPhase_from_state tools : ∀ i n guid w sd sf sw,
  runPhase_from dryRun install i n tools guid (mkWorld (hst w) sd sf sw (invoked w))
  = let '(r, w') := runPhase_from dryRun install i n tools guid w in
    (r, mkWorld (hst w') sd sf sw (invoked w')).
Proof.
  induction tools as [|t tools IH]; intros i n guid w sd sf sw; cbn [runPhase_from]; [done|].
  set (w0 := onHost (print (OutProgress (i + 1) n t)) w).
  change (onHost (print (OutProgress (i + 1) n t)) (mkWorld (hst w) sd sf sw (invoked w)))
    with (mkWorld (hst w0) sd sf sw (invoked w0)).
  rewrite (runTool_state t guid w0 sd sf sw).
  destruct (runTool dryRun install t guid w0) as [[e|] w1]; [done|].
  apply (IH (S i) n guid (onHost (print (OutToolDone t)) w1)).
Qed.

Lemma runPhase_from_keeps_state tools : ∀ i n guid w,
  stateData (runPhase_from dryRun install i n tools guid w).2 = stateData w
  ∧ stateFile (runPhase_from dryRun install i n tools guid w).2 = stateFile w
  ∧ stateWritable (runPhase_from dryRun install i n tools guid w).2 = stateWritable w.
Proof.
  induction tools as [|t tools IH]; intros i n guid w; cbn [runPhase_from]; [done|].
  pose proof (runTool_keeps_state t guid (onHost (print (OutProgress (i + 1) n t)) w))
    as (Hd & Hf & Hw).
  destruct (runTool _ _ _ _ _) as [[e|] w1]; [done|].
  destruct (IH (S i) n guid (onHost (print (OutToolDone t)) w1)) as (Hd' & Hf' & Hw').
  simpl in *. split_and!; congruence.
Qed.

(** A phase that succeeds outside simulate-only mode has invoked the
    installer of each of its tools, in order. *)
Lemma runPhase_from_success tools : ∀ i n guid w w',
  dryRun = false →
  runPhase_from dryRun install i n tools guid w = (None, w') →
  invoked w' = invoked w ++ tools.
Proof.
  induction tools as [|t tools IH]; intros i n guid w w' Hdry; cbn [runPhase_from].
  - intros [= <-]. by rewrite app_nil_r.
  - pose proof (runTool_invoked t guid (onHost (print (OutProgress (i + 1) n t)) w)) as Hinv.
    pose proof (runTool_success_registered t guid
                  (onHost (print (OutProgress (i + 1) n t)) w) Hdry) as Hreg.
    destruct (runTool _ _ _ _ _) as [[e|] w1]; [done|].
    intros Hrest. apply IH in Hrest; [|done]. simpl in *.
    rewrite Hrest, Hinv, Hdry, bool_decide_eq_true_2 by auto.
    by rewrite <- app_assoc.
Qed.

(** The loop stops at the first tool whose [runTool] fails. *)
Lemma runPhase_from_app pre : ∀ i n rest guid w w1,
  runPhase_from dryRun install i n pre guid w = (None, w1) →
  runPhase_from dryRun install i n (pre ++ rest) guid w
  = runPhase_from dryRun install (i + length pre) n rest guid w1.
Proof.
  induction pre as [|t pre IH]; intros i n rest guid w w1;
    cbn [runPhase_from app length].
  - intros [= <-]. by rewrite Nat.add_0_r.
  - destruct (runTool _ _ _ _ _) as [[e|] w2]; [done|].
    intros Hrest. rewrite (IH _ _ _ _ _ _ Hrest). f_equal. lia.
Qed.

End EngineFacts.

(** C3. Fail-fast: when the tools before [t] have succeeded and the
    installer path of [t] returns an error, the phase ends right there
    with a failure: the final state is the one [runTool] left for [t],
    so nothing of the later tools is run and the installers invoked are
    those of the tools up to [t]; Run State is as it was, so it records
    no tool that it did not record before, let alone [t] or a later one. *)
Theorem runPhase_fail_fast {Machine : Type} (dryRun : bool)
    (install : toolID → string → @host Machine → option string * @host Machine)
    (pre : list toolID) (t : toolID) (post : list toolID) (guid : string)
    (w w1 w2 : @world Machine) (e : string) :
  let tools := pre ++ t :: post in
  runPhase_from dryRun install 0 (length tools) pre guid w = (None, w1) →
  runTool dryRun install t guid
    (onHost (print (OutProgress (length pre + 1) (length tools) t)) w1) = (Some e, w2) →
  runPhase dryRun install tools guid w = (Some (t +:+ " failed: " +:+ e), w2)
  ∧ invoked w2 = invoked w ++ pre ++ (if bool_decide (t ∈ registered) then [t] else [])
  ∧ stateData w2 = stateData w
  ∧ stateFile w2 = stateFile w
  ∧ (∀ u, isToolCompleted u w2 = true → isToolCompleted u w = true ∨ u ∈ pre).
Proof.
  intros tools Hpre Ht.
  assert (Hdry : dryRun = false).
  { destruct dryRun; [|done]. unfold runTool in Ht. discriminate Ht. }
  pose proof (runPhase_from_keeps_state dryRun install pre 0 (length tools) guid w)
    as (Hd1 & Hf1 & _).
  pose proof (runTool_keeps_state dryRun install t guid
                (onHost (print (OutProgress (length pre + 1) (length tools) t)) w1))
    as (Hd2 & Hf2 & _).
  pose proof (runTool_invoked dryRun install t guid
                (onHost (print (OutProgress (length pre + 1) (length tools) t)) w1)) as Hi2.
  pose proof (runPhase_from_success dryRun install pre 0 (length tools) guid w w1 Hdry Hpre)
    as Hi1.
  rewrite Hpre in Hd1, Hf1. rewrite Ht in Hd2, Hf2, Hi2. simpl in *.
  assert (Hsd : stateData w2 = stateData w) by congruence.
  split_and!.
  - unfold runPhase. fold tools. unfold tools at 2.
    rewrite (runPhase_from_app dryRun install pre 0 (length tools) (t :: post) guid w w1 Hpre).
    cbn [runPhase_from]. simpl (0 + length pre). by rewrite Ht.
  - rewrite Hi2, Hi1, Hdry. by rewrite <- app_assoc.
  - done.
  - congruence.
  - intros u Hu. left. unfold isToolCompleted in *. by rewrite <- Hsd.
Qed.

Lemma runPhase_fail_fast_witness :
  let w1 := (runPhase_from false (failingInstall toolHomebrew) 0 3 [toolXcode]
               "jsmith" resumedWorld).2 in
  let w2 := (runTool false (failingInstall toolHomebrew) toolHomebrew "jsmith"
               (onHost (print (OutProgress 2 3 toolHomebrew)) w1)).2 in
  runPhase false (failingInstall toolHomebrew) [toolXcode; toolHomebrew; toolPyenv]
    "jsmith" resumedWorld
  = (Some "homebrew failed: exit status 1", w2)
  ∧ invoked w2 = [toolXcode; toolHomebrew]
  ∧ stateData w2 = stateData resumedWorld
  ∧ stateFile w2 = stateFile resumedWorld
  ∧ (∀ u, isToolCompleted u w2 = true →
          isToolCompleted u resumedWorld = true ∨ u ∈ [toolXcode]).
Proof.
  intros w1 w2.
  exact (runPhase_fail_fast false (failingInstall toolHomebrew)
           [toolXcode] toolHomebrew [toolPyenv] "jsmith" resumedWorld w1 w2
           "exit status 1" eq_refl eq_refl).
Defined.

(** C2 (as amended). The phase engine does not consult Run State:
    [runPhase] leaves it unchanged in memory and on disk, its result
    and its effect on the host do not depend on it, and outside
    simulate-only mode a phase that succeeds has invoked the installer
    of every one of its tools, completed before or not.  The helper
    [markToolCompleted], which the engine never calls, would record the
    tool and persist the state file at once. *)
Theorem runPhase_ignores_run_state {Machine : Type} (dryRun : bool)
    (install : toolID → string → @host Machine → option string * @host Machine)
    (tools : list toolID) (guid : string) (w : @world Machine) :
  stateData (runPhase dryRun install tools guid w).2 = stateData w
  ∧ stateFile (runPhase dryRun install tools guid w).2 = stateFile w
  ∧ (∀ sd sf sw,
       runPhase dryRun install tools guid (mkWorld (hst w) sd sf sw (invoked w))
       = let '(r, w') := runPhase dryRun install tools guid w in
         (r, mkWorld (hst w') sd sf sw (invoked w')))
  ∧ (dryRun = false → (runPhase dryRun install tools guid w).1 = None →
     invoked (runPhase dryRun install tools guid w).2 = invoked w ++ tools)
  ∧ (∀ t now, stateWritable w = true →
       isToolCompleted t (markToolCompleted t now w).2 = true
       ∧ stateFile (markToolCompleted t now w).2 = stateData (markToolCompleted t now w).2).
Proof.
  unfold runPhase.
  pose proof (runPhase_from_keeps_state dryRun install tools 0 (length tools) guid w)
    as (Hd & Hf & _).
  split_and!; [done | done | | |].
  - intros sd sf sw. apply runPhase_from_state.
  - intros Hdry Hok.
    destruct (runPhase_from _ _ _ _ _ _ _) as [r w'] eqn:Hrun. simpl in *. subst r.
    by eapply runPhase_from_success.
  - intros t now Hw. unfold markToolCompleted, saveRunState, isToolCompleted. simpl.
    rewrite Hw. simpl. split; [|done].
    apply bool_decide_eq_true_2. rewrite lookup_insert_eq. eauto.
Qed.

(** C2, counterexample to the claim as stated: Run State records iTerm2
    as completed and nothing forces a reinstall, yet the phase invokes
    its installer; and after the installer of Xcode has succeeded Run
    State does not record Xcode and the state file is as before. *)
Lemma runPhase_reinstalls_completed :
  isToolCompleted toolITerm2 resumedWorld = true
  ∧ (runPhase false quietInstall [toolITerm2; toolXcode] "jsmith" resumedWorld).1 = None
  ∧ invoked (runPhase false quietInstall [toolITerm2; toolXcode] "jsmith" resumedWorld).2
    = [toolITerm2; toolXcode]
  ∧ isToolCompleted toolXcode
      (runPhase false quietInstall [toolITerm2; toolXcode] "jsmith" resumedWorld).2 = false
  ∧ stateFile (runPhase false quietInstall [toolITerm2; toolXcode] "jsmith" resumedWorld).2
    = stateFile resumedWorld.
Proof. split_and!; by vm_compute. Qed.

(** ** Simulate-only mode *)

Section DryRunFacts.

Context {Machine : Type}.
Variable execCommand :
  list string → string → list string → Machine → string * option string * Machine.
Variable baseEnv : list string.
Variable HOME : string.
Variable pathExists : string → Machine → bool.
Variable TrimSpace : string → string.
Variable install : toolID → string → @host Machine → option string * @host Machine.
Variable uiShowSSHKey : string → Machine → option string.
Variable checkPublicInternet : Machine → option string.
Variable dial : nat → string → bool.
Implicit Types (h : @host Machine) (w : @world Machine).

Lemma runTool_dry t guid w :
  runTool true install t guid w
  = (None, onHost (λ h, logInfo t ("dry-run mode: would install " +:+ t)
                          (logInfo t ("installing: " +:+ t) h)) w).
Proof. done. Qed.


Lemma runPhase_from_dry tools guid : ∀ i n w,
  ∃ w', runPhase_from true install i n tools guid w = (None, w') ∧ onlyLoggedW w w'.
Proof.
  induction tools as [|t tools IH]; intros i n w; cbn [runPhase_from].
  - eexists; split; [done | apply onlyLoggedW_refl].
  - rewrite runTool_dry.
    destruct (IH (S i) n (onHost (print (OutToolDone t))
                (onHost (λ h, logInfo t ("dry-run mode: would install " +:+ t)
                                (logInfo t ("installing: " +:+ t) h))
                   (onHost (print (OutProgress (i + 1) n t)) w)))) as (w' & Hrun & Hw').
    rewrite Hrun. eexists; split; [done|].
    eapply onlyLoggedW_trans; [|exact Hw'].
    apply (onlyLoggedW_onHost
             (λ h, print (OutToolDone t)
                     (logInfo t ("dry-run mode: would install " +:+ t)
                        (logInfo t ("installing: " +:+ t)
                           (print (OutProgress (i + 1) n t) h))))).
    frame.
Qed.

Lemma runCmd_dry step env name args h :
  runCmd true execCommand baseEnv TrimSpace step env name args h
  = ("", None,
     logInfo step ("DRY-RUN: would exec: " +:+ name +:+ " " +:+ JoinSpace args) h).
Proof. done. Qed.

Lemma waitForVPN_dry fuel h :
  waitForVPN true fuel dial h
  = Some (None, logInfo "vpn_wait"
                  "dry-run mode: would poll internal hosts for VPN connectivity" h).
Proof. done. Qed.

Lemma postVPNSSHKeyStep_dry h :
  (postVPNSSHKeyStep true uiShowSSHKey h).1 = None
  ∧ onlyLogged h (postVPNSSHKeyStep true uiShowSSHKey h).2.
Proof.
  unfold postVPNSSHKeyStep. destruct (decide _); simpl; (split; [done | frame]).
Qed.

Lemma pipeline_dry tools bastion guid fuel w :
  ∃ w', pipeline true execCommand baseEnv HOME pathExists TrimSpace install
          uiShowSSHKey checkPublicInternet dial tools bastion guid fuel w = Some (0, w')
        ∧ onlyLoggedW w w'.
Proof.
  unfold pipeline. destruct (splitPhases tools) as [p1 p3].
  set (w0 := onHost _ w).
  assert (Hw0 : onlyLoggedW w w0) by (subst w0; frameW).
  clearbody w0.
  destruct (runPhase_from_dry p1 guid 0 (length p1) w0) as (w1 & Hrun1 & Hw1).
  unfold runPhase at 1. rewrite Hrun1. clear Hrun1.
  assert (Hw1' : onlyLoggedW w w1) by by eapply onlyLoggedW_trans.
  clear Hw0 Hw1 w0.
  set (w2 := onHost (logInfo "pyenv_global" _) w1).
  assert (Hw2 : onlyLoggedW w w2) by (subst w2; frameW).
  clearbody w2. clear Hw1' w1.
  set (sshpass := if hasTool tools toolGNOCHelper then _ else _).
  assert (Hssh : ∃ w3, sshpass = (None, w3) ∧ onlyLoggedW w w3).
  { subst sshpass. destruct (hasTool tools toolGNOCHelper).
    - eexists; split; [done|]. frameW.
    - eauto. }
  destruct Hssh as (w3 & -> & Hw3). clear Hw2 w2.
  destruct (decide (p3 = [])) as [Hp3|Hp3].
  { eexists; split; [done|]. destruct bastion; frameW. }
  rewrite waitForVPN_dry.
  set (w4 := onHost _ w3).
  assert (Hw4 : onlyLoggedW w w4) by (subst w4; frameW).
  clearbody w4. clear Hw3 w3.
  set (w5 := setHost _ w4).
  assert (Hw5 : onlyLoggedW w w5) by (subst w5; frameW).
  clearbody w5. clear Hw4 w4.
  destruct (postVPNSSHKeyStep_dry (hst w5)) as [Herr Hh0].
  destruct (postVPNSSHKeyStep true uiShowSSHKey (hst w5)) as [err h0].
  simpl in Herr, Hh0. subst err.
  set (w6 := setHost h0 w5).
  assert (Hw6 : onlyLoggedW w w6) by (subst w6; frameW).
  clearbody w6. clear Hw5 Hh0 w5 h0.
  set (w7 := match checkPublicInternet _ with Some _ => _ | None => _ end).
  assert (Hw7 : onlyLoggedW w w7) by (subst w7; destruct (checkPublicInternet _); frameW).
  clearbody w7. clear Hw6 w6.
  set (w8 := onHost _ w7).
  assert (Hw8 : onlyLoggedW w w8) by (subst w8; frameW).
  clearbody w8. clear Hw7 w7.
  destruct (runPhase_from_dry p3 guid 0 (length p3) w8) as (w9 & Hrun3 & Hw9).
  unfold runPhase. rewrite Hrun3.
  assert (Hw9' : onlyLoggedW w w9) by by eapply onlyLoggedW_trans.
  eexists; split; [done|]. destruct bastion; frameW.
Qed.



End DryRunFacts.


(** ** The Network Transition Gate *)

Lemma pollRound_true (d : string → bool) (hosts : list string) :
  pollRound d hosts = true ↔ ∀ x, x ∈ hosts → d x = true.
Proof.
  induction hosts as [|x hosts IH]; simpl.
  - split; [by intros _ y ?%elem_of_nil | done].
  - destruct (d x) eqn:Hx.
    + rewrite IH. split.
      * intros H y [->|Hy]%elem_of_cons; auto.
      * intros H y Hy. by apply H, list_elem_of_further.
    + split; [done|]. intros H. rewrite <- Hx. apply H, list_elem_of_here.
Qed.

Lemma pollRound_false (d : string → bool) (hosts : list string) :
  pollRound d hosts = false ↔ ∃ x, x ∈ hosts ∧ d x = false.
Proof.
  induction hosts as [|x hosts IH]; simpl.
  - split; [done | by intros (y & ?%elem_of_nil & _)].
  - destruct (d x) eqn:Hx.
    + rewrite IH. split.
      * intros (y & Hy & Hd). exists y. split; [by apply list_elem_of_further | done].
      * intros (y & [->|Hy]%elem_of_cons & Hd); [congruence | eauto].
    + split; [|done]. intros _. exists x. split; [apply list_elem_of_here | done].
Qed.

Section GateFacts.

Context {Machine : Type}.
Variable dial : nat → string → bool.
Implicit Types h : @host Machine.

(** The loop returns at the first round, counted from [round], in which
    every endpoint connects; it has slept five seconds per failed round. *)
Lemma pollLoop_sound fuel : ∀ round h k h',
  pollLoop fuel dial round h = Some (k, h') →
  round ≤ k < round + fuel
  ∧ pollRound (dial k) vpnHosts = true
  ∧ (∀ j, round ≤ j < k → pollRound (dial j) vpnHosts = false)
  ∧ slept h' = slept h + 5 * (k - round).
Proof.
  induction fuel as [|fuel IH]; intros round h k h'; cbn [pollLoop]; [done|].
  destruct (pollRound (dial round) vpnHosts) eqn:Hround.
  - intros [= <- <-]. split_and!; [lia | lia | done | intros j ?; lia |].
    rewrite Nat.sub_diag, Nat.mul_0_r, Nat.add_0_r.
    unfold logInfo, logInfoF, logWrite, print. by destruct (logOpen h).
  - intros (Hk & Hup & Hdown & Hslept)%IH. split_and!; [lia | lia | done | |].
    + intros j Hj. destruct (decide (j = round)) as [->|]; [done|]. apply Hdown. lia.
    + rewrite Hslept. simpl. lia.
Qed.

Lemma pollLoop_complete fuel : ∀ round h k,
  round ≤ k < round + fuel →
  pollRound (dial k) vpnHosts = true →
  (∀ j, round ≤ j < k → pollRound (dial j) vpnHosts = false) →
  ∃ h', pollLoop fuel dial round h = Some (k, h').
Proof.
  induction fuel as [|fuel IH]; intros round h k Hk Hup Hdown; cbn [pollLoop]; [lia|].
  destruct (decide (k = round)) as [->|Hne].
  - rewrite Hup. eauto.
  - rewrite Hdown by lia. apply IH; [lia | done |]. intros j Hj. apply Hdown. lia.
Qed.

End GateFacts.

(** C7 (as amended). Outside simulate-only mode the gate unblocks only
    at the end of a polling round in which every probed endpoint
    accepted the connection, and that round is the first such round:
    every earlier round had an endpoint that did not connect, did not
    unblock, and was followed by the five-second pause and another
    round.  Conversely the gate does unblock at the first round in
    which all endpoints connect.  In simulate-only mode the gate
    returns at once and probes nothing. *)
Theorem waitForVPN_gate {Machine : Type} (fuel : nat) (dial : nat → string → bool)
    (h : @host Machine) :
  (∀ r h', waitForVPN false fuel dial h = Some (r, h') →
     ∃ k, r = Some k ∧ k < fuel
          ∧ (∀ x, x ∈ vpnHosts → dial k x = true)
          ∧ (∀ j, j < k → ∃ x, x ∈ vpnHosts ∧ dial j x = false)
          ∧ slept h' = slept h + 5 * k)
  ∧ (∀ j h', (∃ x, x ∈ vpnHosts ∧ dial j x = false) →
       waitForVPN false fuel dial h ≠ Some (Some j, h'))
  ∧ (∀ k, k < fuel →
       (∀ x, x ∈ vpnHosts → dial k x = true) →
       (∀ j, j < k → ∃ x, x ∈ vpnHosts ∧ dial j x = false) →
       ∃ h', waitForVPN false fuel dial h = Some (Some k, h'))
  ∧ waitForVPN true fuel dial h
    = Some (None, logInfo "vpn_wait"
                    "dry-run mode: would poll internal hosts for VPN connectivity" h).
Proof.
  assert (Hsound : ∀ r h', waitForVPN false fuel dial h = Some (r, h') →
     ∃ k, r = Some k ∧ k < fuel
          ∧ pollRound (dial k) vpnHosts = true
          ∧ (∀ j, j < k → pollRound (dial j) vpnHosts = false)
          ∧ slept h' = slept h + 5 * k).
  { intros r h'. unfold waitForVPN.
    destruct (pollLoop _ _ _ _) as [[k h1]|] eqn:Hloop; [|done].
    intros [= <- <-]. apply pollLoop_sound in Hloop as (Hk & Hup & Hdown & Hslept).
    exists k. split_and!; [done | lia | done | intros j ?; apply Hdown; lia |].
    rewrite Hslept, Nat.sub_0_r.
    unfold logInfo, logInfoF, logWrite, print. by destruct (logOpen h). }
  split_and!.
  - intros r h' (k & -> & Hk & Hup & Hdown & Hslept)%Hsound.
    exists k. split_and!; [done | done | by apply pollRound_true | | done].
    intros j Hj. by apply pollRound_false, Hdown.
  - intros j h' Hfail%pollRound_false (k & [= <-] & _ & Hup & _)%Hsound. congruence.
  - intros k Hk Hup%pollRound_true Hdown. unfold waitForVPN.
    destruct (pollLoop_complete dial fuel 0
                (logInfo "vpn_wait" "polling for VPN connectivity" h) k)
      as [h' Hloop]; [lia | done | |].
    + intros j Hj. apply pollRound_false, Hdown. lia.
    + rewrite Hloop. eauto.
  - done.
Qed.

(** The gate on a network that comes up in the third round. *)
Example waitForVPN_third_round :
  (λ r, (r.1, slept r.2)) <$> waitForVPN false 5 vpnUpAt2 freshHost = Some (Some 2, 10).
Proof. by vm_compute. Qed.

(** C7, counterexample to the claim as stated: in simulate-only mode
    the gate unblocks although no endpoint of the private network ever
    accepts a connection, and without a polling round. *)
Lemma waitForVPN_dry_run_unblocks :
  (∀ round x, vpnDown round x = false)
  ∧ (λ r, (r.1, slept r.2)) <$> waitForVPN true 0 vpnDown freshHost = Some (None, 0).
Proof. split; [done | by vm_compute]. Qed.

(** ** The [--only] list *)

(** Every key of [validToolIDs] names itself, and every prerequisite in
    the catalog is such a key. *)
Lemma validToolIDs_self (s t : string) : validToolIDs !! s = Some t → t = s.
Proof.
  assert (H : map_Forall (λ s t, t = s) validToolIDs) by compute_done.
  apply H.
Qed.

Lemma depMap_valid (t d : toolID) :
  d ∈ Resolver.depsOf depMap t → is_Some (validToolIDs !! d).
Proof.
  assert (H : map_Forall (λ _ ds, Forall (λ d, is_Some (validToolIDs !! d)) ds) depMap)
    by compute_done.
  unfold Resolver.depsOf. intros Hd.
  destruct (depMap !! t) as [ds|] eqn:Hlk; simpl in Hd; [|by apply elem_of_nil in Hd].
  specialize (H t ds Hlk). rewrite Forall_forall in H. by apply H.
Qed.

(** A plan resolved from known tools holds known tools only. *)
Lemma resolveTools_valid (requested : list toolID) (t : toolID) :
  (∀ r, r ∈ requested → is_Some (validToolIDs !! r)) →
  t ∈ resolveTools requested → is_Some (validToolIDs !! t).
Proof.
  intros Hreq Ht.
  destruct (resolveTools_spec depMap requested depMap_acyclic) as (_ & _ & _ & Hiff).
  apply Hiff in Ht as (r & Hr & Hrt).
  apply rtc_inv_r in Hrt as [->|(u & _ & Hedge)]; [by apply Hreq|].
  by eapply depMap_valid.
Qed.

Section OnlyFacts.

Context {Machine : Type}.
Variable TrimSpace : string → string.
Implicit Types h : @host Machine.

Lemma parseOnlyItems_spec items : ∀ requested h,
  (parseOnlyItems TrimSpace items requested h).1
    = requested ++ omap (λ s, validToolIDs !! s) (TrimSpace <$> items)
  ∧ console (parseOnlyItems TrimSpace items requested h).2
    = console h
      ++ (ErrUnknownTool <$> filter (λ s, validToolIDs !! s = None) (TrimSpace <$> items))
  ∧ onlyLogged h (parseOnlyItems TrimSpace items requested h).2
  ∧ logf (parseOnlyItems TrimSpace items requested h).2 = logf h.
Proof.
  induction items as [|s items IH]; intros requested h; cbn [parseOnlyItems].
  - simpl. rewrite !app_nil_r. split_and!; [done | done | apply onlyLogged_refl | done].
  - rewrite fmap_cons. cbn [omap list_omap].
    destruct (validToolIDs !! TrimSpace s) as [t|] eqn:Hs.
    + rewrite filter_cons_False by (rewrite Hs; naive_solver).
      destruct (IH (requested ++ [t]) h) as (-> & -> & Hfr & ->).
      split_and!; [by rewrite <- app_assoc | done | done | done].
    + rewrite filter_cons_True by done.
      destruct (IH requested (print (ErrUnknownTool (TrimSpace s)) h))
        as (Hreq & Hcon & Hfr & Hlog).
      rewrite Hreq, Hcon, Hlog. simpl. rewrite <- app_assoc.
      split_and!; [done | done | | done].
      eapply onlyLogged_trans; [apply onlyLogged_print | done].
Qed.

Lemma knownTools_valid raw r : r ∈ knownTools TrimSpace raw → is_Some (validToolIDs !! r).
Proof.
  unfold knownTools. intros (s & Hs & Hlk)%list_elem_of_omap.
  apply validToolIDs_self in Hlk as Heq. subst r. eauto.
Qed.

Lemma parseOnlyFlag_spec raw h :
  (parseOnlyFlag TrimSpace raw h).1 = resolveTools (knownTools TrimSpace raw)
  ∧ console (parseOnlyFlag TrimSpace raw h).2
    = console h ++ (ErrUnknownTool <$> unknownIdentifiers TrimSpace raw)
  ∧ onlyLogged h (parseOnlyFlag TrimSpace raw h).2
  ∧ logf (parseOnlyFlag TrimSpace raw h).2 = logf h
  ∧ (∀ s, s ∈ unknownIdentifiers TrimSpace raw → s ∉ (parseOnlyFlag TrimSpace raw h).1).
Proof.
  unfold parseOnlyFlag.
  destruct (parseOnlyItems_spec (SplitComma raw) [] h) as (Hreq & Hcon & Hfr & Hlog).
  destruct (parseOnlyItems _ _ _ _) as [requested h']. simpl in *. subst requested.
  split_and!; [done.. |].
  intros s [Hs _]%list_elem_of_filter Hin.
  apply resolveTools_valid in Hin as [t Ht]; [congruence|].
  apply knownTools_valid.
Qed.

End OnlyFacts.

Section MainFacts.

Context {Machine : Type}.
Variable dryRun : bool.
Variable execCommand :
  list string → string → list string → Machine → string * option string * Machine.
Variable baseEnv : list string.
Variable HOME : string.
Variable pathExists : string → Machine → bool.
Variable TrimSpace : string → string.
Variable install : toolID → string → @host Machine → option string * @host Machine.
Variable firstPmsetValue : string → string → Machine → string.
Variable uiChooseFromList :
  string → string → list string → list string → Machine → list string + string.
Variable uiShowSSHKey : string → Machine → option string.
Variable checkPublicInternet : Machine → option string.
Variable logInitOk : bool.
Variable startSudoKeepalive : Machine → option string.
Variable preflightRun : @host Machine → preflightResult * @host Machine.
Variable dial : nat → string → bool.
Implicit Types (h : @host Machine) (w : @world Machine).

(** [main] from the call of [preflightRun] on, when the start-up went
    through. *)
Lemma main_after_startup (fl : flags) (fuel : nat) w :
  listFlag fl = false →
  logInitOk = true →
  (dryRun = false → startSudoKeepalive (machine (hst w)) = None) →
  main dryRun execCommand baseEnv HOME pathExists TrimSpace install
       firstPmsetValue uiChooseFromList uiShowSSHKey checkPublicInternet
       logInitOk startSudoKeepalive preflightRun dial fl fuel w
  = match preflightRun (hostAtPreflight dryRun (hst w)) with
    | (PreflightExit status, h) => Some (status, setHost h w)
    | (PreflightError e, h) => fatal "preflight" e (setHost h w)
    | (PreflightOK guid, h) =>
        match writeBaseZshrcBlocks dryRun h with
        | (Some e, h) => fatal "zshrc" e (setHost h w)
        | (None, h) =>
            match configureNoSleepAliases dryRun firstPmsetValue h with
            | (Some e, h) => fatal "sleep_alias" e (setHost h w)
            | (None, h) =>
                if negb (bool_decide (onlyFlag fl = "")) then
                  let '(tools, h) := parseOnlyFlag TrimSpace (onlyFlag fl) h in
                  if decide (tools = []) then
                    Some (1, onHost (print (ErrText
                      "No valid tool IDs provided. Use --list to see available tools."))
                      (setHost h w))
                  else pipeline dryRun execCommand baseEnv HOME pathExists TrimSpace
                         install uiShowSSHKey checkPublicInternet dial
                         tools false guid fuel (setHost h w)
                else
                  match promptToolSelection uiChooseFromList (gnocFlag fl) h with
                  | inr e => fatal "tool_select" e (setHost h w)
                  | inl (requested, bastionSelected) =>
                      if bool_decide (requested = []) && negb bastionSelected then
                        Some (0, onHost (print (OutText "No tools selected. Exiting."))
                                   (setHost h w))
                      else pipeline dryRun execCommand baseEnv HOME pathExists TrimSpace
                             install uiShowSSHKey checkPublicInternet dial
                             (resolveTools requested) bastionSelected guid fuel
                             (setHost h w)
                  end
            end
        end
    end.
Proof.
  intros Hlist Hlog Hsudo. unfold main. rewrite Hlist, Hlog. cbn [negb].
  destruct dryRun.
  - reflexivity.
  - cbn [negb]. 
    change (startSudoKeepalive _) with (startSudoKeepalive (machine (hst w))).
    rewrite (Hsudo eq_refl). reflexivity.
Qed.





End MainFacts.



(** * Further properties *)

(** ** The resolver on arbitrary tables *)

Module ResolverGeneral.
Import Resolver.

Section WithGraph.

Variable deps : gmap string (list string).

(** The invariant of the traversal that needs no acyclicity: what has
    been appended has all its prerequisites marked. *)
Definition closed_inv (S : gset string) (st : gset string * list string) : Prop :=
  st.1 = list_to_set st.2 ∪ S
  ∧ NoDup st.2
  ∧ (∀ x, x ∈ S → x ∉ st.2)
  ∧ (∀ x d, x ∈ st.2 → edge deps x d → d ∈ st.1).

Definition visit_post (body : string → gset string * list string
                              → option (gset string * list string))
    (S : gset string) (t : string) : Prop :=
  ∀ st st', closed_inv S st → body t st = Some st' →
    closed_inv S st' ∧ t ∈ st'.1 ∧ st.1 ⊆ st'.1
    ∧ extends st st' (rtc (edge deps) t).

Lemma loop_post body S ds :
  (∀ d, d ∈ ds → visit_post body S d) →
  ∀ st st', closed_inv S st → range_loop body ds st = Some st' →
    closed_inv S st' ∧ (∀ d, d ∈ ds → d ∈ st'.1) ∧ st.1 ⊆ st'.1
    ∧ extends st st' (λ x, ∃ d, d ∈ ds ∧ rtc (edge deps) d x).
Proof.
  induction ds as [|d ds IH]; intros Hbody st st' Hinv Hrun; simpl in Hrun.
  - injection Hrun as <-. split_and!; [done | by intros d ?%elem_of_nil | done |].
    exists []. split; [by rewrite app_nil_r | by intros x ?%elem_of_nil].
  - destruct (body d st) as [st1|] eqn:Hd; [|done].
    destruct (Hbody d (list_elem_of_here _ _) st st1 Hinv Hd)
      as (Hinv1 & Hin1 & Hsub1 & ext1 & Hext1 & Hreach1).
    destruct (IH (λ x Hx, Hbody x (list_elem_of_further _ _ _ Hx)) st1 st' Hinv1 Hrun)
      as (Hinv' & Hin' & Hsub' & ext2 & Hext2 & Hreach2).
    split_and!; [done | | set_solver |].
    + intros x [->|Hx]%elem_of_cons; [by apply Hsub' | by apply Hin'].
    + exists (ext1 ++ ext2). split; [by rewrite Hext2, Hext1, app_assoc|].
      intros x [Hx|Hx]%elem_of_app.
      * exists d. split; [apply list_elem_of_here | by apply Hreach1].
      * destruct (Hreach2 x Hx) as (d' & Hd' & Hr). exists d'.
        split; [by apply list_elem_of_further | done].
Qed.

Lemma visit_post_ok fuel : ∀ S t, visit_post (visit deps fuel) S t.
Proof.
  induction fuel as [|fuel IH]; intros S t [visited order] st' Hinv Hrun;
    simpl in Hrun; destruct (decide (t ∈ visited)) as [Hin|Hnin]; try discriminate Hrun.
  1,2: injection Hrun as <-; split_and!; [done.. |];
       exists []; split; [by rewrite app_nil_r | by intros x ?%elem_of_nil].
  destruct (range_loop _ _ _) as [[visited1 order1]|] eqn:Hloop; [|done].
  injection Hrun as <-.
  destruct Hinv as (Heq & Hnd & Hdisj & Hcl). simpl in Heq, Hnd, Hdisj, Hcl.
  assert (HtS : t ∉ S) by (intros HS; apply Hnin; rewrite Heq; set_solver).
  assert (Htord : t ∉ order)
    by (intros HS; apply Hnin; rewrite Heq, elem_of_union, elem_of_list_to_set; by left).
  destruct (loop_post (visit deps fuel) ({[t]} ∪ S) (depsOf deps t)
              (λ d _, IH _ d) ({[t]} ∪ visited, order) (visited1, order1))
    as ((Hvis1 & Hnd1 & Hdisj1 & Hcl1) & Hdeps & Hsub & ext & Hext & Hreach);
    [|exact Hloop|].
  - split_and!; simpl; [rewrite Heq; set_solver | done | | ].
    + intros x [->%elem_of_singleton|Hx]%elem_of_union; [done | by apply Hdisj].
    + intros x d Hx Hd. apply elem_of_union. right. by eapply Hcl.
  - simpl in *. assert (Ht1 : t ∉ order1) by (apply Hdisj1; set_solver).
    unfold closed_inv, extends; simpl. split_and!.
    + rewrite Hvis1, list_to_set_app_L. simpl. set_solver.
    + apply NoDup_app. split_and!; [done | | apply NoDup_singleton].
      intros x Hx ->%list_elem_of_singleton. done.
    + intros x Hx [Hx1| ->%list_elem_of_singleton]%elem_of_app; [|done].
      eapply Hdisj1; [|done]. set_solver.
    + intros x d [Hx| ->%list_elem_of_singleton]%elem_of_app Hd;
        [by eapply Hcl1 | by apply Hdeps].
    + rewrite Hvis1. set_solver.
    + set_solver.
    + exists (ext ++ [t]). split; [by rewrite Hext, app_assoc|].
      intros x [Hx| ->%list_elem_of_singleton]%elem_of_app; [|done].
      destruct (Hreach x Hx) as (d & Hd & Hr). by eapply rtc_l.
Qed.

(** The final state of the loop of [resolveTools]. *)
Lemma resolve_loop fuel requested visited order :
  range_loop (visit deps fuel) requested (∅, []) = Some (visited, order) →
  visited = list_to_set order
  ∧ NoDup order
  ∧ (∀ t, t ∈ order ↔ needed deps requested t).
Proof.
  intros Hloop.
  destruct (loop_post (visit deps fuel) ∅ requested (λ d _, visit_post_ok fuel ∅ d)
              (∅, []) (visited, order))
    as ((Hvis & Hnd & _ & Hcl) & Hreq & _ & ext & Hext & Hreach); [|done|].
  - split_and!; simpl; [set_solver | constructor | set_solver | ].
    by intros x d ?%elem_of_nil.
  - simpl in *. subst ext.
    assert (Hset : visited = list_to_set order) by (rewrite Hvis; set_solver).
    split_and!; [done | done |].
    intros t. split; [by apply Hreach|].
    intros (r & Hr & Hrt).
    assert (Hr' : r ∈ order) by (apply Hreq in Hr; by rewrite Hset, elem_of_list_to_set in Hr).
    clear Hr. induction Hrt as [|x y z Hxy _ IH]; [done|].
    apply IH. specialize (Hcl x y Hr' Hxy). by rewrite Hset, elem_of_list_to_set in Hcl.
Qed.

(** [visit] only appends to [order]. *)
Lemma visit_appends fuel : ∀ t (st st' : gset string * list string),
  visit deps fuel t st = Some st' → st.2 `prefix_of` st'.2.
Proof.
  induction fuel as [|fuel IH]; intros t [visited order] st' Hrun; simpl in Hrun;
    destruct (decide (t ∈ visited)); try discriminate Hrun;
    try (injection Hrun as <-; done).
  destruct (range_loop _ _ _) as [[visited1 order1]|] eqn:Hloop; [|done].
  injection Hrun as <-. simpl.
  assert (Hl : ∀ ds (st st1 : gset string * list string),
            range_loop (visit deps fuel) ds st = Some st1 → st.2 `prefix_of` st1.2).
  { induction ds as [|d ds IHds]; intros st st1 Hds; simpl in Hds.
    - by injection Hds as <-.
    - destruct (visit deps fuel d st) as [st2|] eqn:Hd; [|done].
      etrans; [by eapply IH | by apply IHds]. }
  apply Hl in Hloop. simpl in Hloop. etrans; [done | by apply prefix_app_r].
Qed.

Lemma loop_appends fuel ds : ∀ (st st' : gset string * list string),
  range_loop (visit deps fuel) ds st = Some st' → st.2 `prefix_of` st'.2.
Proof.
  induction ds as [|d ds IH]; intros st st' Hds; simpl in Hds.
  - by injection Hds as <-.
  - destruct (visit deps fuel d st) as [st2|] eqn:Hd; [|done].
    etrans; [by eapply visit_appends | by apply IH].
Qed.

End WithGraph.
End ResolverGeneral.

(** X1. On every dependency table, with or without cycles, the
    traversal of [resolveTools] ends within its bound, and its output
    has no tool twice and holds exactly the requested tools and their
    transitive prerequisites. *)
Theorem resolveTools_any_table (deps : gmap string (list string))
    (requested : list toolID) :
  let out := Resolver.resolveTools deps requested in
  Resolver.resolve deps (S (size deps)) requested = Some out
  ∧ NoDup out
  ∧ (∀ t, t ∈ out ↔ Resolver.needed deps requested t).
Proof.
  intros out.
  destruct (ResolverFacts.resolve_total deps requested) as [out' Hrun].
  assert (out = out') as <- by by apply ResolverFacts.resolveTools_eq.
  split; [done|]. unfold Resolver.resolve in Hrun.
  destruct (range_loop _ _ _) as [[visited order]|] eqn:Hloop; [|done].
  injection Hrun as Hout. simpl in Hout. subst order.
  by destruct (ResolverGeneral.resolve_loop deps _ _ _ _ Hloop) as (_ & Hnd & Hiff).
Qed.

(** X2. Requests added at the end never disturb the plan of the
    earlier ones: the plan for [requested] is a prefix of the plan for
    [requested ++ more], on every table. *)
Theorem resolveTools_prefix_stable (deps : gmap string (list string))
    (requested more : list toolID) :
  Resolver.resolveTools deps requested
    `prefix_of` Resolver.resolveTools deps (requested ++ more).
Proof.
  destruct (ResolverFacts.resolve_total deps requested) as [out1 Hrun1].
  destruct (ResolverFacts.resolve_total deps (requested ++ more)) as [out2 Hrun2].
  rewrite (ResolverFacts.resolveTools_eq deps _ _ Hrun1),
          (ResolverFacts.resolveTools_eq deps _ _ Hrun2).
  unfold Resolver.resolve in *. rewrite range_loop_app in Hrun2.
  destruct (range_loop _ requested _) as [[vis1 ord1]|] eqn:Hloop1; [|done].
  injection Hrun1 as Hout1. simpl in Hout1. subst ord1.
  destruct (range_loop _ more _) as [[vis2 ord2]|] eqn:Hloop2; [|done].
  injection Hrun2 as Hout2. simpl in Hout2. subst ord2.
  by apply ResolverGeneral.loop_appends in Hloop2.
Qed.

(** X3. Requesting tools that the plan already holds changes nothing:
    if every tool of [more] is in the plan for [requested], the plan
    for [requested ++ more] is that same plan, on every table. *)
Theorem resolveTools_covered_requests (deps : gmap string (list string))
    (requested more : list toolID) :
  (∀ t, t ∈ more → t ∈ Resolver.resolveTools deps requested) →
  Resolver.resolveTools deps (requested ++ more) = Resolver.resolveTools deps requested.
Proof.
  intros Hmore.
  destruct (ResolverFacts.resolve_total deps requested) as [out1 Hrun1].
  rewrite (ResolverFacts.resolveTools_eq deps _ _ Hrun1) in *.
  apply ResolverFacts.resolveTools_eq.
  unfold Resolver.resolve in *. rewrite range_loop_app.
  destruct (range_loop _ requested _) as [[vis1 ord1]|] eqn:Hloop1; [|done].
  injection Hrun1 as Hout1. simpl in Hout1. subst ord1.
  destruct (ResolverGeneral.resolve_loop deps _ _ _ _ Hloop1) as (Hvis & _).
  rewrite ResolverFacts.loop_visited; [done|].
  intros d Hd. simpl. rewrite Hvis, elem_of_list_to_set. by apply Hmore.
Qed.

Lemma resolveTools_covered_requests_witness :
  Resolver.resolveTools depMap ([toolGNOCHelper] ++ [toolPyenv; toolAllProxy])
  = Resolver.resolveTools depMap [toolGNOCHelper].
Proof.
  apply (resolveTools_covered_requests depMap [toolGNOCHelper] [toolPyenv; toolAllProxy]).
  intros t Ht. repeat (apply elem_of_cons in Ht as [->|Ht]).
  - apply (bool_decide_unpack _). vm_compute. exact I.
  - apply (bool_decide_unpack _). vm_compute. exact I.
  - by apply elem_of_nil in Ht.
Defined.

(** X4. The public phase of a resolved plan stands on its own: resolving
    the public-phase list again returns it unchanged, so no tool of
    phase 1 needs a tool of the private phase. *)
Theorem phase1_self_contained (requested : list toolID) :
  resolveTools (splitPhases (resolveTools requested)).1
  = (splitPhases (resolveTools requested)).1.
Proof.
  destruct (resolveTools_spec depMap requested depMap_acyclic) as (_ & Hnd & Hord & _).
  fold (resolveTools requested) in Hnd, Hord.
  rewrite splitPhases_filter. simpl.
  apply ResolverFacts.resolveTools_eq, ResolverFacts.resolve_fixed.
  - by apply NoDup_filter.
  - eapply ResolverFacts.ordered_prefix.
    apply (ordered_split depMap (λ t, inPhase1 t = true)); [exact phase1_closed | done].
Qed.

(** ** Helpers of main.go *)

Lemma toolIDsToNames_from_spec ids : ∀ seen,
  NoDup (toolIDsToNames_from seen ids)
  ∧ (∀ x, x ∈ toolIDsToNames_from seen ids ↔ x ∈ ids ∧ x ∉ seen)
  ∧ (toolIDsToNames_from seen ids) `sublist_of` ids.
Proof.
  induction ids as [|id ids IH]; intros seen; cbn [toolIDsToNames_from].
  - split_and!; [constructor | | done]. intros x. rewrite elem_of_nil. naive_solver.
  - destruct (decide (id ∈ seen)) as [Hin|Hnin].
    + destruct (IH seen) as (Hnd & Hiff & Hsub).
      split_and!; [done | | by apply sublist_cons].
      intros x. rewrite Hiff, elem_of_cons. naive_solver.
    + destruct (IH ({[id]} ∪ seen)) as (Hnd & Hiff & Hsub).
      split_and!; [| | by apply sublist_skip].
      * apply NoDup_cons. split; [|done]. rewrite Hiff. set_solver.
      * intros x. rewrite !elem_of_cons, Hiff.
        destruct (decide (x = id)) as [->|]; set_solver.
Qed.

Lemma toolIDsToNames_from_NoDup ids : ∀ seen,
  NoDup ids → (∀ x, x ∈ ids → x ∉ seen) → toolIDsToNames_from seen ids = ids.
Proof.
  induction ids as [|id ids IH]; intros seen Hnd Hdisj; cbn [toolIDsToNames_from]; [done|].
  apply NoDup_cons in Hnd as [Hid Hnd].
  rewrite decide_False by (apply Hdisj, list_elem_of_here).
  f_equal. apply IH; [done|].
  intros x Hx [->%elem_of_singleton|Hs]%elem_of_union; [done|].
  by eapply Hdisj; [apply list_elem_of_further|].
Qed.

(** Names behind a name already seen are dropped as if they were not
    in the list. *)
Lemma toolIDsToNames_from_skip (x : string) ids : ∀ seen,
  toolIDsToNames_from ({[x]} ∪ seen) ids
  = toolIDsToNames_from seen (filter (λ y, y ≠ x) ids).
Proof.
  induction ids as [|id ids IH]; intros seen; [done|].
  destruct (decide (id = x)) as [->|Hne].
  - rewrite filter_cons_False by (by intros ?). cbn [toolIDsToNames_from].
    rewrite decide_True by set_solver. apply IH.
  - rewrite filter_cons_True by done. cbn [toolIDsToNames_from].
    destruct (decide (id ∈ seen)) as [Hin|Hnin].
    + rewrite decide_True by set_solver. apply IH.
    + rewrite decide_False by set_solver. f_equal.
      replace ({[id]} ∪ ({[x]} ∪ seen)) with ({[x]} ∪ ({[id]} ∪ seen)) by set_solver.
      apply IH.
Qed.

(** X5. [toolIDsToNames] removes repetitions and nothing else: its
    result has no name twice, holds exactly the names of its argument,
    keeps their order of first occurrence (the first name stays first
    and its later copies are the ones dropped, and so on down the
    list), and is the argument itself when that has no repetition;
    applying it twice is applying it once. *)
Theorem toolIDsToNames_dedup (ids : list toolID) :
  NoDup (toolIDsToNames ids)
  ∧ (∀ x, x ∈ toolIDsToNames ids ↔ x ∈ ids)
  ∧ (toolIDsToNames ids) `sublist_of` ids
  ∧ (∀ x, toolIDsToNames (x :: ids)
          = x :: toolIDsToNames (filter (λ y, y ≠ x) ids))
  ∧ (NoDup ids → toolIDsToNames ids = ids)
  ∧ toolIDsToNames (toolIDsToNames ids) = toolIDsToNames ids.
Proof.
  unfold toolIDsToNames.
  destruct (toolIDsToNames_from_spec ids ∅) as (Hnd & Hiff & Hsub).
  split_and!; [done | | done | | |].
  - intros x. rewrite Hiff. set_solver.
  - intros x. cbn [toolIDsToNames_from]. rewrite decide_False by set_solver.
    f_equal. apply toolIDsToNames_from_skip.
  - intros Hids. apply toolIDsToNames_from_NoDup; [done | set_solver].
  - apply toolIDsToNames_from_NoDup; [done | set_solver].
Qed.

(** Every key of [validToolIDs] has a case in the [switch] of [runTool]. *)
Lemma valid_registered (t : toolID) : is_Some (validToolIDs !! t) → t ∈ registered.
Proof.
  assert (H : map_Forall (λ k _, k ∈ registered) validToolIDs) by compute_done.
  intros [v Hv]. by apply (H t v).
Qed.

(** X6. The plan [parseOnlyFlag] returns is always fit for the phases:
    whatever the [--only] string, it has no tool twice, lists every
    tool after its prerequisites, and holds only tools that [runTool]
    has a case for. *)
Theorem parseOnlyFlag_plan {Machine : Type} (TrimSpace : string → string)
    (raw : string) (h : @host Machine) :
  let tools := (parseOnlyFlag TrimSpace raw h).1 in
  NoDup tools
  ∧ Resolver.ordered depMap tools
  ∧ (∀ t, t ∈ tools → t ∈ registered).
Proof.
  intros tools. subst tools.
  destruct (parseOnlyFlag_spec TrimSpace raw h) as (-> & _).
  destruct (resolveTools_spec depMap (knownTools TrimSpace raw) depMap_acyclic)
    as (_ & Hnd & Hord & _).
  split_and!; [done | done |].
  intros t Ht. apply valid_registered.
  eapply resolveTools_valid; [|done]. apply knownTools_valid.
Qed.

Section SelectionFacts.

Context {Machine : Type}.
Variable uiChooseFromList :
  string → string → list string → list string → Machine → list string + string.

(** X7. Whatever the operator picks in the dialog, the selection that
    [promptToolSelection] returns holds only tools that [runTool] has a
    case for, and so does the plan resolved from it; the bastion entry
    never becomes a tool; and choosing gnoc_helper brings stencil,
    silencer and jit_pass along. *)
Theorem promptToolSelection_valid (defaultIncludeGNOC : bool) (h : @host Machine) :
  match promptToolSelection uiChooseFromList defaultIncludeGNOC h with
  | inl (selected, bastionSelected) =>
      (∀ t, t ∈ selected → t ∈ registered)
      ∧ (∀ t, t ∈ resolveTools selected → t ∈ registered)
      ∧ ¬ (bastionConfigsOption ∈ selected)
      ∧ (toolGNOCHelper ∈ selected →
         toolStencil ∈ selected ∧ toolSilencer ∈ selected ∧ toolJITPass ∈ selected)
  | inr e => True
  end.
Proof.
  unfold promptToolSelection.
  destruct (uiChooseFromList _ _ _ _ _) as [names|e]; [|done].
  set (selected := omap _ names).
  assert (Hsel : ∀ t, t ∈ selected ↔
            t ∈ names ∧ t ≠ bastionConfigsOption ∧ is_Some (validToolIDs !! t)).
  { intros t. subst selected. rewrite list_elem_of_omap. split.
    - intros (name & Hname & Hlk). destruct (decide (name = bastionConfigsOption)); [done|].
      apply validToolIDs_self in Hlk as Heq. subst t. eauto.
    - intros (Hname & Hne & [v Hv]). exists t. split; [done|].
      rewrite decide_False by done. rewrite Hv. f_equal. by apply validToolIDs_self in Hv. }
  assert (Hgnoc : hasTool selected toolGNOCHelper = true ↔ toolGNOCHelper ∈ selected).
  { unfold hasTool. rewrite existsb_exists. split.
    - intros (x & Hx%list_elem_of_In & ->%String.eqb_eq). done.
    - intros Hx. exists toolGNOCHelper. split; [by apply list_elem_of_In|].
      apply String.eqb_refl. }
  set (selected' := if hasTool selected toolGNOCHelper then _ else _).
  assert (Hsel' : ∀ t, t ∈ selected' ↔
            t ∈ selected
            ∨ (toolGNOCHelper ∈ selected ∧ t ∈ [toolStencil; toolSilencer; toolJITPass])).
  { intros t. subst selected'. destruct (hasTool selected toolGNOCHelper).
    - pose proof (proj1 Hgnoc eq_refl). rewrite elem_of_app. naive_solver.
    - split; [by left|]. intros [?|[Hg' _]]; [done|]. by apply Hgnoc in Hg'. }
  clearbody selected'.
  assert (Hreg : ∀ t, t ∈ selected' → is_Some (validToolIDs !! t)).
  { intros t [Ht|[_ Ht]]%Hsel'; [by apply Hsel in Ht as (_ & _ & ?)|].
    repeat (apply elem_of_cons in Ht as [->|Ht]); [by vm_compute; eauto.. |].
    by apply elem_of_nil in Ht. }
  split_and!.
  - intros t Ht. by apply valid_registered, Hreg.
  - intros t Ht. apply valid_registered. by eapply resolveTools_valid.
  - intros [Hb|[_ Hb]]%Hsel'; [by apply Hsel in Hb as (_ & ? & _)|].
    repeat (apply elem_of_cons in Hb as [Hb|Hb]); [done.. |]. by apply elem_of_nil in Hb.
  - intros Hg. assert (toolGNOCHelper ∈ selected) as Hg'.
    { apply Hsel' in Hg as [Hg|[Hg _]]; done. }
    split_and!; apply Hsel'; right; (split; [done|]);
      repeat first [apply list_elem_of_here | apply list_elem_of_further].
Qed.

End SelectionFacts.

(** ** The phase engine, continued *)

Section EngineMore.

Context {Machine : Type}.
Variable install : toolID → string → @host Machine → option string * @host Machine.
Implicit Types (h : @host Machine) (w : @world Machine).

(** X8. A tool without a case in the [switch] of [runTool] is an error
    outside simulate-only mode: [runTool] reports "unknown tool",
    invokes no installer and changes nothing but log and console.  In
    simulate-only mode the same tool is reported as a success, because
    the mode is tested before the [switch]. *)
Theorem runTool_unknown_tool (t : toolID) (guid : string) (w : @world Machine) :
  t ∉ registered →
  (runTool false install t guid w).1 = Some ("unknown tool: " +:+ t)
  ∧ onlyLoggedW w (runTool false install t guid w).2
  ∧ (runTool true install t guid w).1 = None.
Proof.
  intros Hun. unfold runTool. rewrite bool_decide_eq_false_2 by done. simpl.
  split_and!; [done | | done]. frameW.
Qed.

(** The installers a phase invokes are those of a prefix of its tools. *)
Lemma runPhase_from_invoked dryRun tools : ∀ i n guid w,
  ∃ l, l `prefix_of` tools
       ∧ invoked (runPhase_from dryRun install i n tools guid w).2 = invoked w ++ l
       ∧ (dryRun = true → l = [])
       ∧ (dryRun = false → (runPhase_from dryRun install i n tools guid w).1 = None →
          l = tools).
Proof.
  induction tools as [|t tools IH]; intros i n guid w; cbn [runPhase_from].
  - exists []. split_and!; [done | by rewrite app_nil_r | done | done].
  - pose proof (runTool_invoked dryRun install t guid
                  (onHost (print (OutProgress (i + 1) n t)) w)) as Hinv.
    pose proof (runTool_success_registered dryRun install t guid
                  (onHost (print (OutProgress (i + 1) n t)) w)) as Hreg.
    destruct (runTool _ _ _ _ _) as [[e|] w1]; simpl in *.
    + exists (if dryRun then [] else if bool_decide (t ∈ registered) then [t] else []).
      split_and!; [|done|by intros ->|done].
      destruct dryRun; [apply prefix_nil|].
      destruct (bool_decide _); [by apply prefix_cons, prefix_nil | apply prefix_nil].
    + destruct (IH (S i) n guid (onHost (print (OutToolDone t)) w1))
        as (l & Hpre & Hl & Hdry & Hall).
      simpl in Hl. destruct dryRun.
      * rewrite (Hdry eq_refl) in *. exists [].
        rewrite app_nil_r in Hinv. split_and!; [apply prefix_nil | congruence | done | done].
      * rewrite bool_decide_eq_true_2 in Hinv by auto.
        exists (t :: l). split_and!.
        -- by apply prefix_cons.
        -- rewrite Hl, Hinv. by rewrite <- app_assoc.
        -- done.
        -- intros _ Hok. f_equal. by apply Hall.
Qed.

End EngineMore.

Lemma waitForVPN_real_sound {Machine : Type} (fuel : nat) (dial : nat → string → bool)
    (h h' : @host Machine) (r : option nat) :
  waitForVPN false fuel dial h = Some (r, h') →
  ∃ k, r = Some k ∧ k < fuel ∧ ∀ x, x ∈ vpnHosts → dial k x = true.
Proof.
  unfold waitForVPN.
  destruct (pollLoop _ _ _ _) as [[k h1]|] eqn:Hloop; [|done].
  intros [= <- <-]. apply pollLoop_sound in Hloop as (Hk & Hup & _).
  exists k. split_and!; [done | lia | by apply pollRound_true].
Qed.

Lemma runTool_unknown_tool_witness :
  (runTool false quietInstall "bogus" "jsmith" freshWorld).1 = Some "unknown tool: bogus"
  ∧ onlyLoggedW freshWorld (runTool false quietInstall "bogus" "jsmith" freshWorld).2
  ∧ (runTool true quietInstall "bogus" "jsmith" freshWorld).1 = None.
Proof.
  apply (runTool_unknown_tool quietInstall "bogus" "jsmith" freshWorld).
  apply (bool_decide_unpack _). vm_compute. exact I.
Defined.

(** ** The pipeline outside simulate-only mode *)

Section PipelineFacts.

Context {Machine : Type}.
Variable execCommand :
  list string → string → list string → Machine → string * option string * Machine.
Variable baseEnv : list string.
Variable HOME : string.
Variable pathExists : string → Machine → bool.
Variable TrimSpace : string → string.
Variable install : toolID → string → @host Machine → option string * @host Machine.
Variable uiShowSSHKey : string → Machine → option string.
Variable checkPublicInternet : Machine → option string.
Variable dial : nat → string → bool.
Implicit Types (h : @host Machine) (w : @world Machine).

(** The part of the process that only installers and Run State
    helpers change. *)
Definition sameTrace (w1 w2 : @world Machine) : Prop :=
  invoked w2 = invoked w1 ∧ stateData w2 = stateData w1 ∧ stateFile w2 = stateFile w1.

Lemma pipeline_real tools bastion guid fuel w code w' :
  pipeline false execCommand baseEnv HOME pathExists TrimSpace install
    uiShowSSHKey checkPublicInternet dial tools bastion guid fuel w = Some (code, w') →
  ∃ l, l `prefix_of` ((splitPhases tools).1 ++ (splitPhases tools).2)
       ∧ invoked w' = invoked w ++ l
       ∧ (code = 0 ∧ l = (splitPhases tools).1 ++ (splitPhases tools).2 ∨ code = 1)
       ∧ (length (splitPhases tools).1 < length l →
          ∃ k, k < fuel ∧ ∀ x, x ∈ vpnHosts → dial k x = true)
       ∧ stateData w' = stateData w ∧ stateFile w' = stateFile w.
Proof.
  unfold pipeline. destruct (splitPhases tools) as [p1 p3]. cbn [fst snd].
  set (w0 := onHost _ w).
  unfold runPhase at 1.
  destruct (runPhase_from_invoked install false p1 0 (length p1) guid w0)
    as (l1 & Hpre1 & Hinv1 & _ & Hall1).
  destruct (runPhase_from_keeps_state false install p1 0 (length p1) guid w0)
    as (Hsd1 & Hsf1 & _).
  destruct (runPhase_from false install 0 (length p1) p1 guid w0) as [[e|] w1];
    simpl in Hinv1, Hall1, Hsd1, Hsf1.
  { unfold fatal. intros [= <- <-]. exists l1. simpl.
    split_and!; [by apply prefix_app_r | done | by right | | done | done].
    intros Hlen. apply prefix_length in Hpre1. lia. }
  rewrite (Hall1 eq_refl eq_refl) in Hinv1. clear Hall1 Hpre1 l1. clear w0.
  destruct (setPyenvGlobal _ _ _ _ _ _ _) as [o2 h2].
  set (w2 := match o2 return @world Machine with Some _ => _ | None => _ end).
  assert (Hw2 : sameTrace w1 w2) by (subst w2; by destruct o2).
  clearbody w2.
  set (sp := if hasTool tools toolGNOCHelper then _ else _).
  assert (Hsp : sameTrace w2 sp.2).
  { subst sp. destruct (hasTool tools toolGNOCHelper); [|done].
    by destruct (ensureSSHPass _ _ _ _ _ _) as [? ?]. }
  assert (Hw3 : sameTrace w1 sp.2)
    by (destruct Hw2 as (? & ? & ?), Hsp as (? & ? & ?); repeat split; congruence).
  clear Hw2 Hsp. clearbody sp. clear w2 o2 h2.
  destruct sp as [[e|] w3]; simpl in Hw3; destruct Hw3 as (Hi3 & Hd3 & Hf3).
  { unfold fatal. intros [= <- <-]. exists p1. simpl.
    split_and!; [by apply prefix_app_r | congruence | by right | lia
                | congruence | congruence]. }
  destruct (decide (p3 = [])) as [->|Hp3].
  { intros [= <- <-]. exists p1. rewrite app_nil_r.
    split_and!; [done | destruct bastion; simpl; congruence | by left | lia
                | destruct bastion; simpl; congruence
                | destruct bastion; simpl; congruence]. }
  destruct (@waitForVPN Machine false fuel dial _) as [[r h4]|] eqn:Hwait; [|done].
  apply waitForVPN_real_sound in Hwait as (k & _ & Hk & Hup).
  destruct (@postVPNSSHKeyStep Machine false uiShowSSHKey _) as [[e|] h5].
  { unfold fatal. intros [= <- <-]. exists p1. simpl.
    split_and!; [by apply prefix_app_r | congruence | by right | lia
                | congruence | congruence]. }
  set (w6 := onHost _ _).
  assert (Hw6 : sameTrace w3 w6) by (subst w6; by destruct (checkPublicInternet _)).
  clearbody w6. destruct Hw6 as (Hi6 & Hd6 & Hf6).
  unfold runPhase.
  destruct (runPhase_from_invoked install false p3 0 (length p3) guid w6)
    as (l3 & Hpre3 & Hinv3 & _ & Hall3).
  destruct (runPhase_from_keeps_state false install p3 0 (length p3) guid w6)
    as (Hsd3 & Hsf3 & _).
  destruct (runPhase_from false install 0 (length p3) p3 guid w6) as [[e|] w7];
    simpl in Hinv3, Hall3, Hsd3, Hsf3.
  - unfold fatal. intros [= <- <-]. exists (p1 ++ l3). simpl.
    split_and!; [by apply prefix_app | | by right | by eauto | congruence | congruence].
    rewrite Hinv3, Hi6, Hi3, Hinv1. by rewrite <- app_assoc.
  - intros [= <- <-]. exists (p1 ++ p3). rewrite (Hall3 eq_refl eq_refl) in Hinv3.
    split_and!; [done | | by left | by eauto | |];
      destruct bastion; simpl; rewrite ?Hinv3, ?Hi6, ?Hi3, ?Hinv1, <- ?app_assoc;
      congruence.
Qed.

(** X9. Outside simulate-only mode the pipeline invokes the installers
    of a prefix of the plan in phase order, public-phase tools first;
    it ends with status 0 only when the installer of every tool of the
    plan has been invoked, and with status 1 otherwise. *)
Theorem pipeline_installs_in_phase_order (tools : list toolID) (bastion : bool)
    (guid : string) (fuel : nat) (w w' : @world Machine) (code : nat) :
  pipeline false execCommand baseEnv HOME pathExists TrimSpace install
    uiShowSSHKey checkPublicInternet dial tools bastion guid fuel w = Some (code, w') →
  ∃ l, l `prefix_of` ((splitPhases tools).1 ++ (splitPhases tools).2)
       ∧ invoked w' = invoked w ++ l
       ∧ (code = 0 ∧ l = (splitPhases tools).1 ++ (splitPhases tools).2 ∨ code = 1).
Proof.
  intros (l & Hpre & Hinv & Hcode & _)%pipeline_real. eauto.
Qed.


End PipelineFacts.

Lemma pipeline_installs_in_phase_order_witness :
  let r := pipeline false quietExec [] "/Users/jsmith" (λ _ _, false) noTrim quietInstall
             (λ _ _, None) (λ _, None) vpnUpAt2 [toolAllProxy; toolXcode] false "jsmith" 5
             freshWorld in
  ∃ l, l `prefix_of` [toolXcode; toolAllProxy]
       ∧ invoked (default (0, freshWorld) r).2 = invoked freshWorld ++ l
       ∧ ((default (0, freshWorld) r).1 = 0 ∧ l = [toolXcode; toolAllProxy]
          ∨ (default (0, freshWorld) r).1 = 1).
Proof.
  intros r.
  apply (@pipeline_installs_in_phase_order unit quietExec [] "/Users/jsmith"
           (λ _ _, false) noTrim quietInstall (λ _ _, None) (λ _, None) vpnUpAt2
           [toolAllProxy; toolXcode] false "jsmith" 5 freshWorld
           (default (0, freshWorld) r).2 (default (0, freshWorld) r).1).
  by vm_compute.
Defined.


(** ** The run as a whole *)

Section MainMore.

Context {Machine : Type}.
Variable dryRun : bool.
Variable execCommand :
  list string → string → list string → Machine → string * option string * Machine.
Variable baseEnv : list string.
Variable HOME : string.
Variable pathExists : string → Machine → bool.
Variable TrimSpace : string → string.
Variable install : toolID → string → @host Machine → option string * @host Machine.
Variable firstPmsetValue : string → string → Machine → string.
Variable uiChooseFromList :
  string → string → list string → list string → Machine → list string + string.
Variable uiShowSSHKey : string → Machine → option string.
Variable checkPublicInternet : Machine → option string.
Variable logInitOk : bool.
Variable startSudoKeepalive : Machine → option string.
Variable preflightRun : @host Machine → preflightResult * @host Machine.
Variable dial : nat → string → bool.
Implicit Types (h : @host Machine) (w : @world Machine).

Lemma print_names_frame (names : list string) h :
  onlyLogged h (foldr (λ name, print (OutText ("  " +:+ name))) h names)
  ∧ logf (foldr (λ name, print (OutText ("  " +:+ name))) h names) = logf h.
Proof.
  induction names as [|name names [IH1 IH2]]; simpl; [by split; [apply onlyLogged_refl|]|].
  split; [|done]. eapply onlyLogged_trans; [exact IH1 | apply onlyLogged_print].
Qed.

Lemma print_names_console (names : list string) h :
  console (foldr (λ name, print (OutText ("  " +:+ name))) h names)
  = console h ++ ((λ name, OutText ("  " +:+ name)) <$> reverse names).
Proof.
  induction names as [|name names IH]; cbn [foldr].
  - by rewrite app_nil_r.
  - cbn [print console]. rewrite IH, reverse_cons, fmap_app, app_assoc. done.
Qed.

(** X11. With [--list] the run prints the heading and then each
    identifier of [validToolIDs] once, in some order, and ends with
    status 0 whatever the other flags are: the log is not opened and
    gains no record, no preflight, installer or command runs, and
    ~/.zshrc and Run State are as they were. *)
Theorem main_list_only_prints (fl : flags) (fuel : nat) (w : @world Machine) :
  listFlag fl = true →
  ∃ w' names,
    main dryRun execCommand baseEnv HOME pathExists TrimSpace install
      firstPmsetValue uiChooseFromList uiShowSSHKey checkPublicInternet
      logInitOk startSudoKeepalive preflightRun dial fl fuel w
    = Some (0, w')
    ∧ NoDup names
    ∧ (∀ name, name ∈ names ↔ is_Some (validToolIDs !! name))
    ∧ console (hst w')
      = console (hst w)
        ++ OutText "Available tool IDs (--only=id1,id2,...):"
           :: ((λ name, OutText ("  " +:+ name)) <$> names)
    ∧ onlyLoggedW w w'
    ∧ logf (hst w') = logf (hst w).
Proof.
  intros Hlist. unfold main. rewrite Hlist.
  eexists _, (map_to_list validToolIDs).*1. split; [done|].
  destruct (print_names_frame (reverse (map_to_list validToolIDs).*1)
              (print (OutText "Available tool IDs (--only=id1,id2,...):") (hst w)))
    as [Hfr Hlog].
  split_and!; [| | | | exact Hlog].
  - apply NoDup_fst_map_to_list.
  - intros name. rewrite list_elem_of_fmap. split.
    + intros ([k v] & -> & Hkv%elem_of_map_to_list). by exists v.
    + intros [v Hv]. exists (name, v). split; [done | by apply elem_of_map_to_list].
  - cbn [onHost hst]. rewrite print_names_console, reverse_involutive.
    cbn [print console]. by rewrite <- app_assoc.
  - apply onlyLoggedW_onHost. eapply onlyLogged_trans; [apply onlyLogged_print | exact Hfr].
Qed.

Ltac use_pipeline_dry :=
  match goal with
  | |- context [pipeline true _ _ _ _ _ _ _ _ _ ?tools ?b ?g ?f ?W] =>
      let w'' := fresh "w" in
      let Hrun := fresh "Hrun" in
      destruct (pipeline_dry execCommand baseEnv HOME pathExists TrimSpace install
                  uiShowSSHKey checkPublicInternet dial tools b g f W)
        as (w'' & Hrun & (_ & ? & ? & _ & ?));
      rewrite Hrun
  end.

Lemma main_dry (fl : flags) (fuel : nat) w :
  ∃ code w', main true execCommand baseEnv HOME pathExists TrimSpace install
               firstPmsetValue uiChooseFromList uiShowSSHKey checkPublicInternet
               logInitOk startSudoKeepalive preflightRun dial fl fuel w
             = Some (code, w')
             ∧ invoked w' = invoked w
             ∧ stateData w' = stateData w
             ∧ stateFile w' = stateFile w.
Proof.
  unfold main. destruct (listFlag fl); [by eexists _, _|].
  destruct logInitOk; cbn [negb]; [|by eexists _, _].
  destruct (preflightRun _) as [[guid|e|st] h1];
    [|unfold fatal; by eexists _, _|by eexists _, _].
  destruct (writeBaseZshrcBlocks _ _) as [[e|] h2]; [unfold fatal; by eexists _, _|].
  destruct (configureNoSleepAliases _ _ _) as [[e|] h3]; [unfold fatal; by eexists _, _|].
  destruct (bool_decide (onlyFlag fl = "")); cbn [negb].
  - destruct (promptToolSelection _ _ _) as [[requested b]|e];
      [|unfold fatal; by eexists _, _].
    destruct (bool_decide (requested = []) && negb b); [by eexists _, _|].
    use_pipeline_dry. eexists _, _. split; [done|]. simpl in *. split_and!; congruence.
  - destruct (parseOnlyFlag _ _ _) as [tools h4].
    destruct (decide (tools = [])); [by eexists _, _|].
    use_pipeline_dry. eexists _, _. split; [done|]. simpl in *. split_and!; congruence.
Qed.

(** X12. A simulate-only run always comes to an end, whatever the
    network does: it never waits at the gate, invokes no installer and
    leaves Run State, in memory and on disk, as it was. *)
Theorem main_dry_run_returns (fl : flags) (fuel : nat) (w : @world Machine) :
  ∃ code w', main true execCommand baseEnv HOME pathExists TrimSpace install
               firstPmsetValue uiChooseFromList uiShowSSHKey checkPublicInternet
               logInitOk startSudoKeepalive preflightRun dial fl fuel w
             = Some (code, w')
             ∧ invoked w' = invoked w
             ∧ stateData w' = stateData w
             ∧ stateFile w' = stateFile w.
Proof. apply main_dry. Qed.

(** X13. An installer is invoked only in a real run that got through
    its start: if a run has invoked an installer, then it was not
    simulate-only, [--list] was not given, the log could be opened,
    sudo was granted on the machine of the run, the preflight, called
    on the host the run had reached, returned an identifier, and both
    ~/.zshrc steps that follow it succeeded. *)
Theorem main_installs_only_after_preflight (fl : flags) (fuel : nat)
    (w w' : @world Machine) (code : nat) :
  main dryRun execCommand baseEnv HOME pathExists TrimSpace install
    firstPmsetValue uiChooseFromList uiShowSSHKey checkPublicInternet
    logInitOk startSudoKeepalive preflightRun dial fl fuel w = Some (code, w') →
  invoked w' ≠ invoked w →
  dryRun = false
  ∧ listFlag fl = false
  ∧ logInitOk = true
  ∧ startSudoKeepalive (machine (hst w)) = None
  ∧ (∃ guid h1 h2 h3,
       preflightRun (hostAtPreflight false (hst w)) = (PreflightOK guid, h1)
       ∧ writeBaseZshrcBlocks false h1 = (None, h2)
       ∧ configureNoSleepAliases false firstPmsetValue h2 = (None, h3)).
Proof.
  intros Hrun Hne.
  assert (Hdry : dryRun = false).
  { destruct (decide (dryRun = false)) as [|Hd%not_false_is_true]; [done|].
    rewrite Hd in Hrun. destruct (main_dry fl fuel w) as (c & w1 & Hdry & Hi & _).
    rewrite Hdry in Hrun. injection Hrun as <- <-. done. }
  assert (Hlist : listFlag fl = false).
  { destruct (listFlag fl) eqn:Hl; [|done]. unfold main in Hrun. rewrite Hl in Hrun.
    injection Hrun as <- <-. by destruct Hne. }
  assert (Hlog : logInitOk = true).
  { destruct (decide (logInitOk = true)) as [|Hl%not_true_is_false]; [done|].
    unfold main in Hrun. rewrite Hlist, Hl in Hrun. cbn [negb] in Hrun.
    injection Hrun as <- <-. by destruct Hne. }
  assert (Hsudo : startSudoKeepalive (machine (hst w)) = None).
  { destruct (startSudoKeepalive (machine (hst w))) as [e|] eqn:Hs; [|done].
    unfold main in Hrun. rewrite Hlist, Hlog, Hdry in Hrun. cbn [negb] in Hrun.
    change (startSudoKeepalive _) with (startSudoKeepalive (machine (hst w))) in Hrun.
    rewrite Hs in Hrun. unfold fatal in Hrun. injection Hrun as <- <-. by destruct Hne. }
  split_and!; [done..|].
  rewrite (main_after_startup dryRun execCommand baseEnv HOME pathExists TrimSpace
             install firstPmsetValue uiChooseFromList uiShowSSHKey checkPublicInternet
             logInitOk startSudoKeepalive preflightRun dial fl fuel w Hlist Hlog
             (λ _, Hsudo)) in Hrun.
  rewrite Hdry in Hrun.
  destruct (preflightRun _) as [[guid|e|st] h1] eqn:Hpre;
    [|unfold fatal in Hrun; injection Hrun as <- <-; by destruct Hne
     |injection Hrun as <- <-; by destruct Hne].
  destruct (writeBaseZshrcBlocks false h1) as [[e|] h2] eqn:Hbase;
    [unfold fatal in Hrun; injection Hrun as <- <-; by destruct Hne|].
  destruct (configureNoSleepAliases false firstPmsetValue h2) as [[e|] h3] eqn:Hsleep;
    [unfold fatal in Hrun; injection Hrun as <- <-; by destruct Hne|].
  by exists guid, h1, h2, h3.
Qed.

End MainMore.

Lemma main_list_only_prints_witness :
  ∃ w' names,
    exampleMain quietInstall (mkFlags false "" true) 0 freshWorld = Some (0, w')
    ∧ NoDup names
    ∧ (∀ name, name ∈ names ↔ is_Some (validToolIDs !! name))
    ∧ console (hst w')
      = console (hst freshWorld)
        ++ OutText "Available tool IDs (--only=id1,id2,...):"
           :: ((λ name, OutText ("  " +:+ name)) <$> names)
    ∧ onlyLoggedW freshWorld w'
    ∧ logf (hst w') = logf (hst freshWorld).
Proof.
  apply (@main_list_only_prints unit false quietExec [] "/Users/jsmith"
           (λ _ _, false) noTrim quietInstall (λ _ fallback _, fallback)
           (λ _ _ _ _ _, inl []) (λ _ _, None) (λ _, None) true (λ _, None)
           quietPreflight vpnDown (mkFlags false "" true) 0 freshWorld).
  reflexivity.
Defined.

Lemma main_installs_only_after_preflight_witness :
  false = false
  ∧ listFlag (mkFlags false "xcode" false) = false
  ∧ true = true
  ∧ (λ _ : unit, @None string) (machine (hst freshWorld)) = None
  ∧ (∃ guid h1 h2 h3,
       quietPreflight (hostAtPreflight false (hst freshWorld)) = (PreflightOK guid, h1)
       ∧ writeBaseZshrcBlocks false h1 = (None, h2)
       ∧ configureNoSleepAliases false (λ _ fallback _, fallback) h2 = (None, h3)).
Proof.
  pose (r := main false quietExec [] "/Users/jsmith" (λ _ _, false) noTrim quietInstall
               (λ _ fallback _, fallback) (λ _ _ _ _ _, inl []) (λ _ _, None)
               (λ _, None) true (λ _, None) quietPreflight vpnUpAt2
               (mkFlags false "xcode" false) 5 freshWorld).
  apply (@main_installs_only_after_preflight unit false quietExec []
           "/Users/jsmith" (λ _ _, false) noTrim quietInstall (λ _ fallback _, fallback)
           (λ _ _ _ _ _, inl []) (λ _ _, None) (λ _, None) true (λ _, None)
           quietPreflight vpnUpAt2 (mkFlags false "xcode" false) 5 freshWorld
           (default (0, freshWorld) r).2 (default (0, freshWorld) r).1).
  - by vm_compute.
  - by vm_compute.
Defined.

(** ** Helpers of the execution primitive *)

(** ** Truncated output *)

Lemma length_append_string (s t : string) :
  String.length (s +:+ t) = (String.length s + String.length t)%nat.
Proof. induction s as [|c s IH]; simpl; [done | by rewrite IH]. Qed.

Lemma length_substring_0 (n : nat) (s : string) :
  (n ≤ String.length s)%nat → String.length (substring 0 n s) = n.
Proof.
  revert s. induction n as [|n IH]; intros [|c s]; simpl; try done; try lia.
  intros H. rewrite IH; lia.
Qed.

Lemma substring_0_append (n : nat) (s t : string) :
  (n ≤ String.length s)%nat → substring 0 n (s +:+ t) = substring 0 n s.
Proof.
  revert s. induction n as [|n IH]; intros [|c s]; simpl; try done; try lia.
  - by destruct t.
  - intros H. rewrite IH; [done | lia].
Qed.

Lemma substring_0_idem (n : nat) (s : string) :
  substring 0 n (substring 0 n s) = substring 0 n s.
Proof.
  revert s. induction n as [|n IH]; intros [|c s]; simpl; try done.
  by rewrite IH.
Qed.

(** X14. [truncate s n] is at most [n + 3] bytes long (longer than [s]
    itself when [s] exceeds [n] by one or two bytes), keeps the first
    [n] bytes of [s], and truncating again changes nothing. *)
Theorem truncate_bounded (s : string) (n : nat) :
  (String.length (truncate s n) ≤ n + 3)%nat
  ∧ substring 0 n (truncate s n) = substring 0 n s
  ∧ truncate (truncate s n) n = truncate s n.
Proof.
  unfold truncate. destruct (Nat.leb (String.length s) n) eqn:Hle.
  - rewrite Hle. apply Nat.leb_le in Hle. split_and!; [lia | done | done].
  - apply Nat.leb_gt in Hle.
    assert (Hlen : String.length (substring 0 n s +:+ ellipsis) = (n + 3)%nat).
    { rewrite length_append_string, length_substring_0; [done | lia]. }
    assert (Hsub : substring 0 n (substring 0 n s +:+ ellipsis) = substring 0 n s).
    { rewrite substring_0_append; [apply substring_0_idem|].
      rewrite length_substring_0; lia. }
    rewrite Hlen.
    replace (Nat.leb (n + 3) n) with false by (symmetry; apply Nat.leb_gt; lia).
    rewrite Hsub. split_and!; [lia | done | done].
Qed.

(** ** pyenv environment *)

Lemma filter_filter_none {A} (P Q : A → bool) (l : list A) :
  (∀ x, Q x = true → P x = false) → List.filter P (List.filter Q l) = [].
Proof.
  intros H. induction l as [|x l IH]; simpl; [done|].
  destruct (Q x) eqn:Hq; [simpl; by rewrite (H x Hq) | done].
Qed.

Lemma filter_filter_same {A} (P : A → bool) (l : list A) :
  List.filter P (List.filter P l) = List.filter P l.
Proof.
  induction l as [|x l IH]; simpl; [done|].
  destruct (P x) eqn:Hp; simpl; [by rewrite Hp, IH | done].
Qed.

(** X15. Whatever the base environment holds, the environment
    [pyenvEnv] builds has exactly one [PATH], one [VIRTUAL_ENV] and one
    [PYENV_VERSION] entry, the last naming the virtualenv; every other
    entry of the base environment is kept, in its order. *)
Theorem pyenvEnv_overrides (baseEnv : list string) (HOME venv : string) :
  let env := pyenvEnv baseEnv HOME venv in
  let other e := negb (HasPrefix e "PATH=") && negb (HasPrefix e "VIRTUAL_ENV=")
                 && negb (HasPrefix e "PYENV_VERSION=") in
  length (List.filter (λ e, HasPrefix e "PATH=") env) = 1
  ∧ length (List.filter (λ e, HasPrefix e "VIRTUAL_ENV=") env) = 1
  ∧ List.filter (λ e, HasPrefix e "PYENV_VERSION=") env = ["PYENV_VERSION=" +:+ venv]
  ∧ List.filter other env = List.filter other baseEnv.
Proof.
  intros env other. unfold env, pyenvEnv.
  rewrite !List.filter_app.
  change (λ e, negb (HasPrefix e "PATH=") && negb (HasPrefix e "VIRTUAL_ENV=")
               && negb (HasPrefix e "PYENV_VERSION=")) with other.
  rewrite (filter_filter_none (λ e, HasPrefix e "PATH=") other),
          (filter_filter_none (λ e, HasPrefix e "VIRTUAL_ENV=") other),
          (filter_filter_none (λ e, HasPrefix e "PYENV_VERSION=") other),
          (filter_filter_same other).
  - split_and!; [done | done | done | by rewrite app_nil_r].
  - intros x. unfold other. by destruct (HasPrefix x "PYENV_VERSION="), (HasPrefix x "PATH="), (HasPrefix x "VIRTUAL_ENV=").
  - intros x. unfold other. by destruct (HasPrefix x "VIRTUAL_ENV="), (HasPrefix x "PATH="), (HasPrefix x "PYENV_VERSION=").
  - intros x. unfold other. by destruct (HasPrefix x "PATH="), (HasPrefix x "VIRTUAL_ENV="), (HasPrefix x "PYENV_VERSION=").
Qed.

(** ** The clean-up registry *)

Lemma fold_left_reverse {A St} (f : St → A → St) (l : list A) (s : St) :
  fold_left f (reverse l) s = foldr (λ x acc, f acc x) s l.
Proof.
  revert s. induction l as [|x l IH]; intros s; [done|].
  rewrite reverse_cons, fold_left_app. simpl. by rewrite IH.
Qed.

Lemma registerCleanup_all {St} (regs : list (option (St → St))) (c : cleanupState St) :
  cleanupFns (foldl (λ c fn, registerCleanup fn c) c regs)
    = cleanupFns c ++ omap id regs
  ∧ cleanupRun (foldl (λ c fn, registerCleanup fn c) c regs) = cleanupRun c.
Proof.
  revert c. induction regs as [|[f|] regs IH]; intros c; cbn [foldl omap].
  - by rewrite app_nil_r.
  - destruct (IH (registerCleanup (Some f) c)) as [-> ->]. simpl.
    by rewrite <- app_assoc.
  - apply IH.
Qed.

(** X16. [runCleanup] runs the registered functions from the last
    registered to the first, nil registrations leaving no trace; a
    second call, also after a later registration, runs nothing. *)
Theorem runCleanup_last_first_once {St : Type}
    (regs : list (option (St → St))) (late : option (St → St)) (s s' : St) :
  let c := foldl (λ c fn, registerCleanup fn c) (mkCleanup [] false) regs in
  (runCleanup c s).2 = foldr (λ f acc, f acc) s (omap id regs)
  ∧ runCleanup (registerCleanup late (runCleanup c s).1) s'
    = (registerCleanup late (runCleanup c s).1, s').
Proof.
  intros c. destruct (registerCleanup_all regs (mkCleanup [] false)) as [Hf Hr].
  fold c in Hf, Hr. simpl in Hf, Hr.
  assert (Hrun : runCleanup c s
                 = (mkCleanup (cleanupFns c) true,
                    fold_left (λ s f, f s) (reverse (cleanupFns c)) s))
    by (unfold runCleanup; by rewrite Hr).
  rewrite Hrun. cbn [fst snd]. split; [by rewrite fold_left_reverse, Hf|].
  by destruct late.
Qed.

(** ** Installers *)

Section HelperFacts.

Context {Machine : Type}.
Variable dryRun : bool.
Variable execCommand :
  list string → string → list string → Machine → string * option string * Machine.
Variable baseEnv : list string.
Variable HOME : string.
Variable pathExists : string → Machine → bool.
Variable TrimSpace : string → string.
Implicit Types (h : @host Machine) (w : @world Machine).

Lemma logWrite_fields level step msg fields h :
  execd (logWrite level step msg fields h) = execd h
  ∧ machine (logWrite level step msg fields h) = machine h
  ∧ zshrc (logWrite level step msg fields h) = zshrc h.
Proof. unfold logWrite. by destruct (logOpen h). Qed.

Lemma logInfo_fields step msg h :
  execd (logInfo step msg h) = execd h
  ∧ machine (logInfo step msg h) = machine h
  ∧ zshrc (logInfo step msg h) = zshrc h.
Proof. apply (logWrite_fields logINFO step msg ∅ h). Qed.

Lemma logWarn_fields step msg h :
  execd (logWarn step msg h) = execd h
  ∧ machine (logWarn step msg h) = machine h
  ∧ zshrc (logWarn step msg h) = zshrc h.
Proof. apply (logWrite_fields logWARN step msg ∅ h). Qed.

Lemma runCmd_trace (dry : bool) step env name args h :
  execd (runCmd dry execCommand baseEnv TrimSpace step env name args h).2
  = execd h ++ (if dry then [] else [(name, args)]).
Proof.
  unfold runCmd. destruct dry.
  - cbn [snd]. rewrite app_nil_r. apply logInfo_fields.
  - destruct (execCommand _ _ _ _) as [[raw err] m'].
    destruct err; cbn [snd]; unfold logErrorF, logInfoF, print; cbn [execd];
      by rewrite (proj1 (logWrite_fields _ _ _ _ _)); cbn [addExec setMachine execd];
      rewrite (proj1 (logInfo_fields _ _ _)).
Qed.

(** [runCmd] outside simulate-only mode: one command on the machine of
    the host, its trimmed output, its error wrapped with the command
    line. *)
Lemma runCmd_real step env name args h :
  let res := execCommand (default baseEnv env) name args (machine h) in
  let r := runCmd false execCommand baseEnv TrimSpace step env name args h in
  r.1.1 = TrimSpace res.1.1
  ∧ r.1.2 = (λ e, name +:+ " " +:+ JoinSpace args +:+ ": " +:+ e +:+ nl
                  +:+ TrimSpace res.1.1) <$> res.1.2
  ∧ machine r.2 = res.2
  ∧ execd r.2 = execd h ++ [(name, args)].
Proof.
  cbv zeta. split_and!; [| | |apply (runCmd_trace false)].
  all: unfold runCmd; rewrite (proj1 (proj2 (logInfo_fields _ _ _))).
  all: destruct (execCommand _ _ _ _) as [[raw [e|]] m']; cbn [fst snd]; try done.
  all: unfold logErrorF, logInfoF, print; cbn [machine].
  all: by rewrite (proj1 (proj2 (logWrite_fields _ _ _ _ _))).
Qed.

(** The loop of [ensureBrewPackages], driven by the results of the
    commands: [k] packages install, then the next one fails or the
    list is at its end. *)
Lemma brewInstallAll_results pkgs : ∀ h (k : nat),
  let brew := "/opt/homebrew/bin/brew" in
  let step (m : Machine) (p : string) := (execCommand baseEnv brew ["install"; p] m).2 in
  let res (i : nat) (p : string) :=
    execCommand baseEnv brew ["install"; p] (foldl step (machine h) (take i pkgs)) in
  (∀ (i : nat) p, (i < k)%nat → pkgs !! i = Some p → (res i p).1.2 = None) →
  match pkgs !! k with
  | Some pkg =>
      ∀ e, (res k pkg).1.2 = Some e →
        ∃ h', brewInstallAll false execCommand baseEnv TrimSpace pkgs h
              = (Some ("brew install " +:+ pkg +:+ ": " +:+ brew +:+ " "
                       +:+ JoinSpace ["install"; pkg] +:+ ": " +:+ e +:+ nl
                       +:+ TrimSpace (res k pkg).1.1), h')
              ∧ execd h' = execd h ++ ((λ p, (brew, ["install"; p])) <$> take (S k) pkgs)
              ∧ machine h' = (res k pkg).2
  | None =>
      ∃ h', brewInstallAll false execCommand baseEnv TrimSpace pkgs h = (None, h')
            ∧ execd h' = execd h ++ ((λ p, (brew, ["install"; p])) <$> pkgs)
            ∧ machine h' = foldl step (machine h) pkgs
  end.
Proof.
  induction pkgs as [|p ps IH]; intros h k brew step res Hprev; subst brew.
  { rewrite lookup_nil. exists h. by rewrite app_nil_r. }
  cbn [brewInstallAll].
  destruct (runCmd_real "homebrew" None "/opt/homebrew/bin/brew" ["install"; p] h)
    as (Ho & He & Hm & Hx).
  cbn [default] in Ho, He, Hm.
  destruct (runCmd false execCommand baseEnv TrimSpace "homebrew" None
              "/opt/homebrew/bin/brew" ["install"; p] h) as [[out err] h1].
  cbn [fst snd] in Ho, He, Hm, Hx.
  destruct k as [|k].
  - cbn [lookup list_lookup]. intros e Hres. unfold res in Hres. cbn [take foldl] in Hres.
    rewrite Hres in He. cbn [fmap option_fmap option_map] in He. subst err.
    exists h1. unfold res. cbn [take foldl]. split_and!; [done | | done].
    by rewrite Hx.
  - assert (H0 : (execCommand baseEnv "/opt/homebrew/bin/brew" ["install"; p]
                    (machine h)).1.2 = None).
    { apply (Hprev 0 p); [lia | done]. }
    rewrite H0 in He. cbn [fmap option_fmap option_map] in He. subst err.
    assert (Hstep : ∀ l, foldl step (machine h) (p :: l) = foldl step (machine h1) l).
    { intros l. cbn [foldl]. unfold step at 2. by rewrite Hm. }
    specialize (IH h1 k).
    cbv zeta in IH. fold step in IH.
    assert (Hprev' : ∀ (i : nat) p0, (i < k)%nat → ps !! i = Some p0 →
              (execCommand baseEnv "/opt/homebrew/bin/brew" ["install"; p0]
                 (foldl step (machine h1) (take i ps))).1.2 = None).
    { intros i p0 Hi Hp. rewrite <- Hstep. apply (Hprev (S i) p0); [lia | done]. }
    specialize (IH Hprev').
    change ((p :: ps) !! S k) with (ps !! k).
    destruct (ps !! k) as [pkg|].
    + intros e Hres. unfold res in Hres. cbn [take] in Hres. rewrite Hstep in Hres.
      destruct (IH e Hres) as (h' & -> & Hx' & Hm').
      exists h'. unfold res. cbn [take]. rewrite Hstep.
      split_and!; [done | | done]. rewrite Hx', Hx, <- app_assoc. done.
    + destruct IH as (h' & -> & Hx' & Hm').
      exists h'. rewrite Hstep. split_and!; [done | | done].
      rewrite Hx', Hx, <- app_assoc. done.
Qed.

Lemma brewInstallAll_trace pkgs h :
  let brewCmds := fmap (M := list) (λ p : string, ("/opt/homebrew/bin/brew", ["install"; p])) in
  match brewInstallAll false execCommand baseEnv TrimSpace pkgs h with
  | (None, h') => execd h' = execd h ++ brewCmds pkgs
  | (Some e, h') =>
      ∃ done pkg rest e0,
        pkgs = done ++ pkg :: rest
        ∧ e = "brew install " +:+ pkg +:+ ": " +:+ e0
        ∧ execd h' = execd h ++ brewCmds (done ++ [pkg])
  end.
Proof.
  intros brewCmds. revert h. induction pkgs as [|pkg pkgs IH]; intros h.
  - simpl. by rewrite app_nil_r.
  - cbn [brewInstallAll].
    pose proof (runCmd_trace false "homebrew" None
                  "/opt/homebrew/bin/brew" ["install"; pkg] h) as Ht.
    destruct (runCmd _ _ _ _ _ _ _ _ _) as [[out [e|]] h1]; cbn [snd] in Ht.
    + exists [], pkg, pkgs, e. by rewrite Ht.
    + specialize (IH h1). destruct (brewInstallAll _ _ _ _ _ _) as [[e|] h2].
      * destruct IH as (done & p & rest & e0 & -> & -> & Hx).
        exists (pkg :: done), p, rest, e0. split_and!; [done | done |].
        rewrite Hx, Ht, <- app_assoc. done.
      * rewrite IH, Ht, <- app_assoc. done.
Qed.

Lemma ensureOpenSCSymlinks_trace h :
  let r := ensureOpenSCSymlinks false execCommand baseEnv pathExists TrimSpace h in
  ∃ tail, execd r.2 = execd h ++ tail
          ∧ Forall (λ c, c.1 = "sudo") tail
          ∧ (length tail ≤ 2)%nat
          ∧ (tail = [] → r.1 = None).
Proof.
  unfold ensureOpenSCSymlinks.
  destruct (pathExists "/Library/OpenSC/lib/opensc-pkcs11.so" (machine h)); cbn [negb].
  2: { exists []. cbn [fst snd]. rewrite app_nil_r.
       split_and!; [apply logWarn_fields | done | simpl; lia | done]. }
  destruct (pathExists "/usr/local/lib/opensc-pkcs11.so" (machine h)).
  { exists []. cbn [fst snd]. rewrite app_nil_r.
    split_and!; [apply logInfo_fields | done | simpl; lia | done]. }
  unfold sudoCmd.
  pose proof (runCmd_trace false "opensc" None "sudo"
                ["mkdir"; "-pv"; "/usr/local/lib"] h) as Ht.
  destruct (runCmd _ _ _ _ _ _ _ _ h) as [[out [e|]] h1]; cbn [snd] in Ht.
  - exists [("sudo", ["mkdir"; "-pv"; "/usr/local/lib"])]. cbn [fst snd].
    split_and!; [done | by repeat constructor | simpl; lia | done].
  - pose proof (runCmd_trace false "opensc" None "sudo"
                  ["ln"; "-v"; "/Library/OpenSC/lib/opensc-pkcs11.so";
                   "/usr/local/lib/opensc-pkcs11.so"] h1) as Ht1.
    destruct (runCmd _ _ _ _ _ _ _ _ h1) as [[out1 err] h2]; cbn [snd] in Ht1.
    exists [("sudo", ["mkdir"; "-pv"; "/usr/local/lib"]);
            ("sudo", ["ln"; "-v"; "/Library/OpenSC/lib/opensc-pkcs11.so";
                      "/usr/local/lib/opensc-pkcs11.so"])].
    cbn [fst snd]. rewrite Ht1, Ht, <- app_assoc.
    split_and!; [done | by repeat constructor | simpl; lia | done].
Qed.

Lemma ensureBrewPackages_trace h :
  let r := ensureBrewPackages false execCommand baseEnv pathExists TrimSpace h in
  let brew := "/opt/homebrew/bin/brew" in
  let brewCmds := fmap (M := list) (λ p : string, (brew, ["install"; p])) in
  (∃ done pkg rest e0,
      brewPackages = done ++ pkg :: rest
      ∧ r.1 = Some ("brew install " +:+ pkg +:+ ": " +:+ e0)
      ∧ execd r.2 = execd h ++ brewCmds (done ++ [pkg]))
  ∨ (∃ tail,
      execd r.2 = execd h ++ brewCmds brewPackages
                    ++ [(brew, ["install"; "--cask"; "opensc"])] ++ tail
      ∧ Forall (λ c, c.1 = "sudo") tail
      ∧ (length tail ≤ 2)%nat
      ∧ (tail = [] → r.1 = None)).
Proof.
  intros r brew brewCmds. unfold r, ensureBrewPackages.
  pose proof (brewInstallAll_trace brewPackages h) as Hb. cbv zeta in Hb.
  destruct (brewInstallAll _ _ _ _ _ _) as [[e|] h1].
  - left. destruct Hb as (done & pkg & rest & e0 & Hp & -> & Hx).
    by exists done, pkg, rest, e0.
  - right.
    pose proof (runCmd_trace false "homebrew" None
                  "/opt/homebrew/bin/brew" ["install"; "--cask"; "opensc"] h1) as Ht.
    destruct (runCmd _ _ _ _ _ _ _ _ h1) as [[out err] h2]; cbn [snd] in Ht.
    match goal with
    | |- context [ensureOpenSCSymlinks _ _ _ _ _ ?h3] =>
        assert (Hh3 : execd h3 = execd h2)
          by (destruct err; [apply logWarn_fields | done]);
        destruct (ensureOpenSCSymlinks_trace h3) as (tail & Hx & Hs & Hl & Hn)
    end.
    exists tail. split_and!; [|done|done|done].
    rewrite Hx, Hh3, Ht, Hb, <- !app_assoc. done.
Qed.

(** X19. [ensureBrewPackages] in a real run, by the results of its
    commands, each run on the machine the one before left.  While the
    packages install, the next one is tried, in the listed order.  The
    first package whose command fails ends the step: the result is its
    error under "brew install <pkg>: ", and no further command is
    executed.  When every package installs, the OpenSC cask is tried
    next, and whatever its result the step goes on with
    [ensureOpenSCSymlinks], whose result is the result of the step: at
    most two commands under sudo follow, and without them the step
    succeeds. *)
Theorem ensureBrewPackages_commands (h : @host Machine) (k : nat) :
  let brew := "/opt/homebrew/bin/brew" in
  let step (m : Machine) (p : string) := (execCommand baseEnv brew ["install"; p] m).2 in
  let res (i : nat) (p : string) :=
    execCommand baseEnv brew ["install"; p]
      (foldl step (machine h) (take i brewPackages)) in
  let r := ensureBrewPackages false execCommand baseEnv pathExists TrimSpace h in
  (∀ (i : nat) p, (i < k)%nat → brewPackages !! i = Some p → (res i p).1.2 = None) →
  match brewPackages !! k with
  | Some pkg =>
      ∀ e, (res k pkg).1.2 = Some e →
        r.1 = Some ("brew install " +:+ pkg +:+ ": " +:+ brew +:+ " "
                    +:+ JoinSpace ["install"; pkg] +:+ ": " +:+ e +:+ nl
                    +:+ TrimSpace (res k pkg).1.1)
        ∧ execd r.2
          = execd h ++ ((λ p, (brew, ["install"; p])) <$> take (S k) brewPackages)
        ∧ machine r.2 = (res k pkg).2
  | None =>
      ∃ h3 tail,
        r = ensureOpenSCSymlinks false execCommand baseEnv pathExists TrimSpace h3
        ∧ machine h3
          = (execCommand baseEnv brew ["install"; "--cask"; "opensc"]
               (foldl step (machine h) brewPackages)).2
        ∧ execd h3
          = execd h ++ ((λ p, (brew, ["install"; p])) <$> brewPackages)
              ++ [(brew, ["install"; "--cask"; "opensc"])]
        ∧ execd r.2 = execd h3 ++ tail
        ∧ Forall (λ c, c.1 = "sudo") tail
        ∧ (length tail ≤ 2)%nat
        ∧ (tail = [] → r.1 = None)
  end.
Proof.
  intros brew step res r Hprev. subst brew.
  pose proof (brewInstallAll_results brewPackages h k Hprev) as Hb.
  unfold r, ensureBrewPackages.
  destruct (brewPackages !! k) as [pkg|].
  - intros e He. destruct (Hb e He) as (h' & -> & Hx & Hm). done.
  - destruct Hb as (h1 & -> & Hx & Hm).
    destruct (runCmd_real "homebrew" None "/opt/homebrew/bin/brew"
                ["install"; "--cask"; "opensc"] h1) as (_ & _ & Hm2 & Hx2).
    cbn [default] in Hm2.
    destruct (runCmd false execCommand baseEnv TrimSpace "homebrew" None
                "/opt/homebrew/bin/brew" ["install"; "--cask"; "opensc"] h1)
      as [[out err] h2].
    cbn [fst snd] in Hm2, Hx2.
    match goal with
    | |- context [ensureOpenSCSymlinks _ _ _ _ _ ?h3] =>
        assert (Hh3 : execd h3 = execd h2 ∧ machine h3 = machine h2)
          by (destruct err; [split; apply logWarn_fields | done]);
        destruct (ensureOpenSCSymlinks_trace h3) as (tail & Ht & Hs & Hl & Hn);
        exists h3, tail
    end.
    destruct Hh3 as [Hh3x Hh3m].
    split_and!; [done | | | done | done | done | done].
    + by rewrite Hh3m, Hm2, Hm.
    + by rewrite Hh3x, Hx2, Hx, <- app_assoc.
Qed.

(** X18. A successful [ensureSSHPass] leaves a machine on which the
    sshpass binary exists at one of its two places. *)
Theorem ensureSSHPass_installed (h h' : @host Machine) :
  ensureSSHPass dryRun execCommand baseEnv pathExists TrimSpace h = (None, h') →
  pathExists "/opt/homebrew/bin/sshpass" (machine h')
  || pathExists "/usr/local/bin/sshpass" (machine h') = true.
Proof.
  unfold ensureSSHPass.
  destruct (pathExists "/opt/homebrew/bin/sshpass" (machine h)
            || pathExists "/usr/local/bin/sshpass" (machine h)) eqn:Hhave.
  { intros [= <-]. by rewrite !(proj1 (proj2 (logInfo_fields _ _ _))). }
  destruct (pathExists "/opt/homebrew/bin/brew" (machine h)); cbn [negb]; [|done].
  destruct (runCmd _ _ _ _ _ _ _ _ h) as [[out [e|]] h1]; cbv beta iota.
  - destruct (runCmd _ _ _ _ _ _ _ _ h1) as [[out2 [fe|]] h2]; cbv beta iota; [done|].
    destruct (pathExists "/opt/homebrew/bin/sshpass" (machine h2)) eqn:H1,
             (pathExists "/usr/local/bin/sshpass" (machine h2)) eqn:H2;
      cbn [negb andb]; intros Heq; simplify_eq; by rewrite ?H1, ?H2.
  - destruct (pathExists "/opt/homebrew/bin/sshpass" (machine h1)) eqn:H1,
             (pathExists "/usr/local/bin/sshpass" (machine h1)) eqn:H2;
      cbn [negb andb]; intros Heq; simplify_eq; by rewrite ?H1, ?H2.
Qed.

(** X17. After [writeBaseZshrcBlocks] has succeeded, the installer of
    pyenv succeeds and leaves ~/.zshrc as it is, provided the file is
    not an existing one the process cannot read. *)
Theorem installPyenv_after_base_blocks (h h1 : @host Machine) :
  (∀ data, zshrc h ≠ Present data false) →
  writeBaseZshrcBlocks dryRun h = (None, h1) →
  (installPyenv dryRun h1).1 = None
  ∧ zshrc (installPyenv dryRun h1).2 = zshrc h1.
Proof.
  intros Hr. unfold writeBaseZshrcBlocks, installPyenv.
  destruct (appendToZshrc_zshrc dryRun "# BEGIN: Homebrew" homebrewBlock h) as [Hz0 Hw0].
  destruct (appendToZshrc dryRun "# BEGIN: Homebrew" homebrewBlock h) as [[e|] h0];
    [done|]. cbn [snd] in Hz0, Hw0.
  intros Hrun.
  destruct (appendToZshrc_zshrc dryRun "# BEGIN: pyenv" pyenvBlock h0) as [Hz1 Hw1].
  rewrite Hrun in Hz1, Hw1. cbn [snd] in Hz1, Hw1.
  destruct (appendToZshrc_zshrc dryRun "# BEGIN: pyenv" pyenvBlock h1) as [Hz2 _].
  assert (Hr0 : ∀ data, zshrc h0 ≠ Present data false).
  { rewrite Hz0. unfold zshrcAfterAppend.
    destruct (fileContains _ _), dryRun, (zshrcWritable h); try done.
    intros data. destruct (zshrc h) as [|d [|]] eqn:Hf; simpl; try done.
    by destruct (Hr d). }
  split.
  - revert Hrun. unfold appendToZshrc at 1.
    destruct (fileContains (zshrc h0) _) eqn:Hc0.
    + intros [= <-]. unfold appendToZshrc.
      by rewrite (proj2 (proj2 (logInfo_fields _ _ _))), Hc0.
    + unfold appendToZshrc. destruct dryRun.
      * intros [= <-]. rewrite (proj2 (proj2 (logInfo_fields _ _ _))). by rewrite Hc0.
      * destruct (zshrcWritable h0) eqn:Hw; [|done]. intros _.
        rewrite Hw1, ?Hw. destruct (fileContains (zshrc h1) _); reflexivity.
  - rewrite Hz2, Hz1, Hw1.
    apply (zshrcAfterAppend_idem dryRun "# BEGIN: pyenv" pyenvBlock (zshrc h0)
             (zshrcWritable h0) Hr0).
    by vm_compute.
Qed.

(** X20. [installSilencer] in a real run, by the results of its
    commands.  It runs one git command, a pull when the working copy
    exists and a clone otherwise; when that fails, its error is the
    result and nothing else is executed.  Otherwise it runs
    [make install] on the machine git left; when that fails, its error
    is the result and nothing else is executed.  Otherwise it runs
    [make link] on the machine [make install] left, and the result of
    that command is the result of the installer. *)
Theorem installSilencer_commands (h : @host Machine) :
  let r := installSilencer false execCommand baseEnv HOME pathExists TrimSpace h in
  let dir := HOME +:+ "/silencer" in
  let git :=
    if pathExists (dir +:+ "/.git") (machine h)
    then ["-C"; dir; "pull"]
    else ["clone"; "ssh://git@bitbucket.oci.oraclecorp.com:7999/nse/silencer.git"; dir] in
  let failed (name : string) (args : list string) (e raw : string) :=
    name +:+ " " +:+ JoinSpace args +:+ ": " +:+ e +:+ nl +:+ TrimSpace raw in
  let '(raw1, e1, m1) := execCommand baseEnv "git" git (machine h) in
  let '(raw2, e2, m2) := execCommand baseEnv "make" ["-C"; dir; "install"] m1 in
  let '(raw3, e3, m3) := execCommand baseEnv "make" ["-C"; dir; "link"] m2 in
  match e1, e2 with
  | Some e, _ =>
      r.1 = Some (failed "git" git e raw1)
      ∧ execd r.2 = execd h ++ [("git", git)]
      ∧ machine r.2 = m1
  | None, Some e =>
      r.1 = Some (failed "make" ["-C"; dir; "install"] e raw2)
      ∧ execd r.2 = execd h ++ [("git", git); ("make", ["-C"; dir; "install"])]
      ∧ machine r.2 = m2
  | None, None =>
      r.1 = (λ e, failed "make" ["-C"; dir; "link"] e raw3) <$> e3
      ∧ execd r.2 = execd h ++ [("git", git); ("make", ["-C"; dir; "install"]);
                                ("make", ["-C"; dir; "link"])]
      ∧ machine r.2 = m3
  end.
Proof.
  intros r dir git failed. unfold r, installSilencer. fold dir.
  assert (Hgit : ∃ msg,
            gitCloneOrPull false execCommand baseEnv pathExists TrimSpace "silencer"
              "ssh://git@bitbucket.oci.oraclecorp.com:7999/nse/silencer.git" dir h
            = ((runCmd false execCommand baseEnv TrimSpace "silencer" None "git" git
                  (logInfo "silencer" msg h)).1.2,
               (runCmd false execCommand baseEnv TrimSpace "silencer" None "git" git
                  (logInfo "silencer" msg h)).2)).
  { unfold gitCloneOrPull, git.
    destruct (pathExists (dir +:+ "/.git") (machine h)).
    - exists ("repo exists, pulling: " +:+ dir).
      by destruct (runCmd _ _ _ _ _ _ _ _ _) as [[? ?] ?].
    - exists ("cloning " +:+ "ssh://git@bitbucket.oci.oraclecorp.com:7999/nse/silencer.git"
              +:+ " → " +:+ dir).
      by destruct (runCmd _ _ _ _ _ _ _ _ _) as [[? ?] ?]. }
  destruct Hgit as (msg & ->).
  destruct (runCmd_real "silencer" None "git" git (logInfo "silencer" msg h))
    as (_ & He1 & Hm1 & Hx1).
  cbn [default] in He1, Hm1.
  rewrite (proj1 (proj2 (logInfo_fields _ _ _))) in He1, Hm1.
  rewrite (proj1 (logInfo_fields _ _ _)) in Hx1.
  destruct (runCmd false execCommand baseEnv TrimSpace "silencer" None "git" git
              (logInfo "silencer" msg h)) as [[out1 err1] h1].
  cbn [fst snd] in He1, Hm1, Hx1 |- *.
  destruct (execCommand baseEnv "git" git (machine h)) as [[raw1 e1] m1].
  cbn [fst snd] in He1, Hm1. subst err1.
  destruct (runCmd_real "silencer" None "make" ["-C"; dir; "install"] h1)
    as (_ & He2 & Hm2 & Hx2).
  cbn [default] in He2, Hm2. rewrite Hm1 in He2, Hm2.
  destruct (execCommand baseEnv "make" ["-C"; dir; "install"] m1) as [[raw2 e2] m2].
  cbn [fst snd] in He2, Hm2.
  destruct e1 as [e|]; cbn [fmap option_fmap option_map].
  { destruct (execCommand baseEnv "make" ["-C"; dir; "link"] m2) as [[raw3 e3] m3].
    cbn [fst snd]. done. }
  destruct (runCmd false execCommand baseEnv TrimSpace "silencer" None "make"
              ["-C"; dir; "install"] h1) as [[out2 err2] h2].
  cbn [fst snd] in He2, Hm2, Hx2. subst err2.
  destruct (runCmd_real "silencer" None "make" ["-C"; dir; "link"] h2)
    as (_ & He3 & Hm3 & Hx3).
  cbn [default] in He3, Hm3. rewrite Hm2 in He3, Hm3.
  destruct (execCommand baseEnv "make" ["-C"; dir; "link"] m2) as [[raw3 e3] m3].
  cbn [fst snd] in He3, Hm3.
  destruct e2 as [e|]; cbn [fmap option_fmap option_map fst snd].
  { split_and!; [done | | done]. by rewrite Hx2, Hx1, <- app_assoc. }
  destruct (runCmd false execCommand baseEnv TrimSpace "silencer" None "make"
              ["-C"; dir; "link"] h2) as [[out3 err3] h3].
  cbn [fst snd] in He3, Hm3, Hx3 |- *. subst err3.
  split_and!; [done | | done]. by rewrite Hx3, Hx2, Hx1, <- !app_assoc.
Qed.

(** X21. Where Homebrew is present, [installHomebrew] in a real run
    does not run the installation script: every command it executes is
    a brew command or a command under sudo. *)
Theorem installHomebrew_skips_script (h : @host Machine) (c : string * list string) :
  pathExists "/opt/homebrew/bin/brew" (machine h) = true →
  c ∈ execd (installHomebrew false execCommand baseEnv pathExists TrimSpace h).2 →
  c ∈ execd h ∨ c.1 = "/opt/homebrew/bin/brew" ∨ c.1 = "sudo".
Proof.
  intros Hbrew. unfold installHomebrew. rewrite Hbrew.
  pose proof (ensureBrewPackages_trace
                (logInfo "homebrew" "Homebrew already installed" h)) as Hc.
  cbv zeta in Hc. rewrite (proj1 (logInfo_fields _ _ _)) in Hc.
  destruct Hc as [(done & pkg & rest & e0 & _ & _ & ->)|(tail & -> & Hs & _ & _)].
  - rewrite elem_of_app, list_elem_of_fmap. intros [?|(p & -> & _)]; auto.
  - rewrite !elem_of_app, list_elem_of_fmap, list_elem_of_singleton.
    intros [?|[(p & -> & _)|[->|Hin]]]; auto.
    right; right. by apply (proj1 (Forall_forall _ _) Hs).
Qed.

(** X22. In simulate-only mode the installers and steps modelled here
    execute nothing and write nothing: the host differs at most by log
    records and console lines. *)
Theorem installers_dry_run_only_log (h : @host Machine) (version venv : string)
    (versions : list string) :
  onlyLogged h (installHomebrew true execCommand baseEnv pathExists TrimSpace h).2
  ∧ onlyLogged h (installPyenv true h).2
  ∧ onlyLogged h (installPythonVersion true execCommand baseEnv HOME pathExists
                    TrimSpace version h).2
  ∧ onlyLogged h (installPyenvVenv true execCommand baseEnv HOME pathExists
                    TrimSpace venv version h).2
  ∧ onlyLogged h (installSilencer true execCommand baseEnv HOME pathExists TrimSpace h).2
  ∧ onlyLogged h (ensureSSHPass true execCommand baseEnv pathExists TrimSpace h).2
  ∧ onlyLogged h (setPyenvGlobal true execCommand baseEnv HOME TrimSpace versions h).2.
Proof.
  assert (Hbrew : ∀ pkgs h0, ∃ h1,
            brewInstallAll true execCommand baseEnv TrimSpace pkgs h0 = (None, h1)
            ∧ onlyLogged h0 h1).
  { induction pkgs as [|pkg pkgs IH]; intros h0; cbn [brewInstallAll].
    - eexists. split; [done | apply onlyLogged_refl].
    - rewrite runCmd_dry. destruct (IH (logInfo "homebrew"
        ("DRY-RUN: would exec: " +:+ "/opt/homebrew/bin/brew" +:+ " "
           +:+ JoinSpace ["install"; pkg]) h0)) as (h1 & -> & Hf).
      eexists. split; [done|]. eapply onlyLogged_trans; [|exact Hf]. frame. }
  assert (Hopensc : ∀ h0,
            onlyLogged h0 (ensureOpenSCSymlinks true execCommand baseEnv pathExists
                             TrimSpace h0).2).
  { intros h0. unfold ensureOpenSCSymlinks, sudoCmd.
    destruct (pathExists _ _); cbn [negb]; [|cbn [snd]; frame].
    destruct (pathExists _ _); [cbn [snd]; frame|].
    rewrite runCmd_dry. cbv beta iota. rewrite runCmd_dry. cbn [snd]. frame. }
  assert (Hpkgs : ∀ h0,
            onlyLogged h0 (ensureBrewPackages true execCommand baseEnv pathExists
                             TrimSpace h0).2).
  { intros h0. unfold ensureBrewPackages.
    destruct (Hbrew brewPackages h0) as (h1 & -> & Hf). rewrite runCmd_dry.
    eapply onlyLogged_trans; [exact Hf|].
    eapply onlyLogged_trans; [|apply Hopensc]. frame. }
  split_and!.
  - unfold installHomebrew. destruct (pathExists _ _).
    + eapply onlyLogged_trans; [|apply Hpkgs]. frame.
    + rewrite runCmd_dry. eapply onlyLogged_trans; [|apply Hpkgs]. frame.
  - unfold installPyenv, appendToZshrc. destruct (fileContains _ _); cbn [snd]; frame.
  - unfold installPythonVersion. destruct (pathExists _ _); [cbn [snd]; frame|].
    rewrite runCmd_dry. cbn [snd]. frame.
  - unfold installPyenvVenv. destruct (pathExists _ _); [cbn [snd]; frame|].
    rewrite runCmd_dry. cbn [snd]. frame.
  - unfold installSilencer, gitCloneOrPull.
    destruct (pathExists _ _); repeat (rewrite runCmd_dry; cbv beta iota);
      cbn [snd]; frame.
  - unfold ensureSSHPass. destruct (_ || _); [cbn [snd]; frame|].
    destruct (pathExists _ _); cbn [negb snd]; [|frame].
    rewrite runCmd_dry. cbv beta iota.
    destruct (negb _ && negb _); cbn [snd]; frame.
  - unfold setPyenvGlobal. rewrite runCmd_dry. cbn [snd]. frame.
Qed.

End HelperFacts.


(** X24. Reset, then mark: exactly the marked tool counts as completed. *)
Theorem resetRunState_then_mark {Machine : Type} (t now : string) (w : @world Machine)
    (t' : toolID) :
  isToolCompleted t' (markToolCompleted t now (resetRunState w).2).2
  = bool_decide (t' = t).
Proof.
  assert (Hd : stateData (resetRunState w).2 = Some ∅).
  { unfold resetRunState, saveRunState. cbn [stateWritable].
    by destruct (stateWritable w). }
  unfold markToolCompleted, saveRunState, isToolCompleted. rewrite Hd.
  cbn [stateWritable stateData default].
  destruct (stateWritable _); cbn [snd stateData].
  all: unfold id; destruct (decide (t' = t)) as [->|Hne].
  all: try (rewrite lookup_insert_eq, (bool_decide_eq_true_2 (t = t)) by done;
            apply bool_decide_eq_true_2; by eexists).
  all: rewrite lookup_insert_ne, lookup_empty, (bool_decide_eq_false_2 (t' = t)) by done.
  all: apply bool_decide_eq_false_2; by intros [? ?].
Qed.

(** ** Instances *)

Lemma installPyenv_after_base_blocks_witness :
  (installPyenv false (writeBaseZshrcBlocks false freshHost).2).1 = None
  ∧ zshrc (installPyenv false (writeBaseZshrcBlocks false freshHost).2).2
    = zshrc (writeBaseZshrcBlocks false freshHost).2.
Proof.
  apply (@installPyenv_after_base_blocks unit false freshHost
           (writeBaseZshrcBlocks false freshHost).2).
  - intros data. discriminate.
  - by vm_compute.
Defined.

(** A machine is here the fact whether sshpass is installed; Homebrew
    is present and each command installs sshpass. *)
Lemma ensureSSHPass_installed_witness :
  let pathExists (p : string) (installed : bool) :=
    if installed then true else String.eqb p "/opt/homebrew/bin/brew" in
  let execCommand (_ : list string) (_ : string) (_ : list string) (_ : bool) :=
    ("", @None string, true) in
  let h := mkHost Absent true false "" [] 0 true "" [] [] in
  pathExists "/opt/homebrew/bin/sshpass"
    (machine (ensureSSHPass false execCommand [] pathExists noTrim h).2)
  || pathExists "/usr/local/bin/sshpass"
       (machine (ensureSSHPass false execCommand [] pathExists noTrim h).2) = true.
Proof.
  intros pathExists execCommand h.
  apply (@ensureSSHPass_installed bool false execCommand [] pathExists noTrim h
           (ensureSSHPass false execCommand [] pathExists noTrim h).2).
  by vm_compute.
Defined.

Lemma installHomebrew_skips_script_witness :
  ("/opt/homebrew/bin/brew", ["install"; "jq"]) ∈ execd freshHost
  ∨ ("/opt/homebrew/bin/brew", ["install"; "jq"]).1 = "/opt/homebrew/bin/brew"
  ∨ ("/opt/homebrew/bin/brew", ["install"; "jq"]).1 = "sudo".
Proof.
  apply (@installHomebrew_skips_script unit quietExec [] (λ _ _, true) noTrim freshHost
           ("/opt/homebrew/bin/brew", ["install"; "jq"])).
  - reflexivity.
  - apply (bool_decide_unpack _). vm_compute. exact I.
Defined.

(** The install of jq fails, every other command succeeds. *)
Lemma ensureBrewPackages_commands_witness :
  let execCommand (_ : list string) (_ : string) (args : list string) (m : unit) :=
    if bool_decide (args = ["install"; "jq"])
    then ("", Some "exit status 1", m) else ("", @None string, m) in
  let r := ensureBrewPackages false execCommand [] (λ _ _, false) noTrim freshHost in
  r.1 = Some ("brew install jq: /opt/homebrew/bin/brew install jq: exit status 1"
              +:+ nl)
  ∧ execd r.2 = [("/opt/homebrew/bin/brew", ["install"; "openssl"]);
                 ("/opt/homebrew/bin/brew", ["install"; "yubico-piv-tool"]);
                 ("/opt/homebrew/bin/brew", ["install"; "jq"])]
  ∧ machine r.2 = tt.
Proof.
  intros execCommand r.
  apply (@ensureBrewPackages_commands unit execCommand [] (λ _ _, false) noTrim
           freshHost 2).
  - intros [|[|i]] p Hi Hp; [by injection Hp as <- | by injection Hp as <- | lia].
  - reflexivity.
Defined.
